(** * Weather.io: the versioned override store, the merge step and the
      forecast cache

    Shallow embedding of [weatherio/server.js] (the override store and its
    HTTP handlers) and of the browser script (forecast cache, hourly
    reduction, merge of the active override over the cached forecast).

    Conventions of the embedding.
    - A JavaScript number is a binary64 float ([PrimFloat.float]); the
      integer-valued [version] and the millisecond clock are kept in [Z].
    - A value that comes out of [JSON.parse] and is used dynamically (request
      body fields, the [newValues] of an override) is a [jsval].
    - The file [data/overrides.json] and the [localStorage] item
      ["weatherCache"] are represented by what [JSON.parse] makes of their
      text; text on which [JSON.parse] throws is a constructor of its own.
    - [try { ... } catch] becomes a [match]; a thrown exception is the [inl]
      of a sum, or [None]. *)

From Stdlib Require Import ZArith Floats.
From stdpp Require Import gmap strings list pretty.

Open Scope Z_scope.

#[local] Set Warnings "-register-all".

(** ** JavaScript values *)

Module Js.

Inductive jsval :=
| JUndefined
| JNull
| JBool (b : bool)
| JNum (x : float)
| JStr (s : string)
| JArr (items : list jsval)
| JObj (fields : list (string * jsval)).

(** ToBoolean: [undefined], [null], [false], [0], [-0], [NaN] and [""] are
    falsy, everything else (objects and arrays included) is truthy. *)
Definition truthy (v : jsval) : bool :=
  match v with
  | JUndefined | JNull => false
  | JBool b => b
  | JNum x => negb (PrimFloat.eqb x 0%float) && PrimFloat.eqb x x
  | JStr s => negb (bool_decide (s = ""))
  | JArr _ | JObj _ => true
  end.

(** [!s] for a value that is a string or [null] ([searchParams.get]). *)
Definition missing (p : option string) : bool :=
  match p with
  | None => true
  | Some s => bool_decide (s = "")
  end.

(** Own property [k] of an object literal; the first binding of a key is
    the one the object holds. *)
Fixpoint assoc (k : string) (fields : list (string * jsval)) : option jsval :=
  match fields with
  | [] => None
  | (k', v) :: rest => if bool_decide (k' = k) then Some v else assoc k rest
  end.

(** [data.k] for one of the names this program reads from a parsed body
    ([lat], [lon], [date], [values]).  Reading from [null] or [undefined]
    throws a TypeError ([None]); numbers, booleans, strings and arrays
    have no property of these names. *)
Definition field (data : jsval) (k : string) : option jsval :=
  match data with
  | JUndefined | JNull => None
  | JObj fields => Some (default JUndefined (assoc k fields))
  | _ => Some JUndefined
  end.

Fixpoint join (sep : string) (parts : list string) : string :=
  match parts with
  | [] => ""
  | [p] => p
  | p :: rest => p +:+ sep +:+ join sep rest
  end.

Section ToString.

(** [Number::toString] of ECMAScript, which this repository does not
    define. *)
Variable Number_toString : float -> string.

(** [String(v)], for a value on which it returns ([String_throws] below
    tells when it throws instead).  An array prints its elements separated by
    commas, [null] and [undefined] elements as the empty string. *)
Fixpoint String_ (v : jsval) : string :=
  match v with
  | JUndefined => "undefined"
  | JNull => "null"
  | JBool true => "true"
  | JBool false => "false"
  | JNum x => Number_toString x
  | JStr s => s
  | JArr items =>
      join ","
        (map (fun i => match i with
                       | JUndefined | JNull => ""
                       | _ => String_ i
                       end) items)
  | JObj _ => "[object Object]"
  end.

End ToString.

(** Whether [String(v)] throws a TypeError.  An object parsed from JSON
    prints through [Object.prototype.toString] unless it has a property
    named [toString] of its own: no JSON value is callable, so the
    conversion then finds no method that returns a primitive and throws.  An
    array throws when one of the elements it prints does. *)
Fixpoint String_throws (v : jsval) : bool :=
  match v with
  | JObj fields =>
      match assoc "toString" fields with
      | Some _ => true
      | None => false
      end
  | JArr items =>
      existsb (fun i => match i with
                        | JUndefined | JNull => false
                        | _ => String_throws i
                        end) items
  | _ => false
  end.

(** What [JSON.parse(JSON.stringify(v))] makes of a value: [NaN] and the
    infinities become [null], [-0] becomes [0], an [undefined] array element
    becomes [null] and an [undefined] property is dropped. *)
Fixpoint JSON_roundtrip (v : jsval) : jsval :=
  match v with
  | JNum x =>
      if is_finite x then (if PrimFloat.eqb x 0 then JNum 0 else JNum x) else JNull
  | JArr items =>
      JArr (map (fun i => match i with
                          | JUndefined => JNull
                          | _ => JSON_roundtrip i
                          end) items)
  | JObj fields =>
      JObj (flat_map (fun p => match snd p with
                               | JUndefined => []
                               | _ => [(fst p, JSON_roundtrip (snd p))]
                               end) fields)
  | _ => v
  end.

(** The own enumerable properties that an object spread [{...v}] copies:
    the fields of an object, the indexed elements of an array, the indexed
    characters of a string (exact for ASCII text), nothing for the other
    primitives. *)
Definition indexed {A} (f : A -> jsval) (l : list A) : list (string * jsval) :=
  imap (fun i x => (pretty (Z.of_nat i), f x)) l.

Definition chars (s : string) : list jsval :=
  map (fun c => JStr (String c EmptyString)) (String.list_ascii_of_string s).

Definition spread (v : jsval) : gmap string jsval :=
  match v with
  | JObj fields => list_to_map fields
  | JArr items => list_to_map (indexed id items)
  | JStr s => list_to_map (indexed id (chars s))
  | _ => ∅
  end.

End Js.

(** ** The override store ([weatherio/server.js]) *)

Module Store.
Import Js.

(** One entry of [data/overrides.json], with the layout documented above
    [readOverrides].  [version] is an integer; the number arithmetic of the
    code on it ([Math.max], [+ 1]) is exact for integers of magnitude up to
    2^53, and that is the range in which [Z] stands for it. *)
Record OverrideRecord := {
  lat : string;
  lon : string;
  date : string;
  newValues : jsval;
  updatedAt : string;
  updatedBy : string;
  version : Z;
  active : bool
}.

(** [o.active = false], in place. *)
Definition deactivate (o : OverrideRecord) : OverrideRecord :=
  {| lat := lat o; lon := lon o; date := date o; newValues := newValues o;
     updatedAt := updatedAt o; updatedBy := updatedBy o;
     version := version o; active := false |}.

(** [o.lat === lat && o.lon === lon && o.date === date] *)
Definition same_key (o : OverrideRecord) (la lo da : string) : bool :=
  bool_decide (lat o = la) && bool_decide (lon o = lo) && bool_decide (date o = da).

(** The backing file: missing, empty, holding text that [JSON.parse]
    rejects, or holding a JSON array of records.  [JSON.parse("")] throws a
    SyntaxError like any other invalid text.  What [writeOverrides] writes
    is read back as the same list; valid JSON of another shape is not
    represented. *)
Inductive file_state :=
| Absent
| Empty
| InvalidJSON (raw : string)
| Holds (list_ : list OverrideRecord).

(** [readFileSync] throws on a missing file and [JSON.parse] on empty or
    invalid text; the [catch] returns []. *)
Definition readOverrides (f : file_state) : list OverrideRecord :=
  match f with
  | Holds all => all
  | Absent | Empty | InvalidJSON _ => []
  end.

Definition writeOverrides (list_ : list OverrideRecord) : file_state :=
  Holds list_.

(** [(a, b) => (a.version > b.version ? a : b)] *)
Definition pick_latest (a b : OverrideRecord) : OverrideRecord :=
  if version a >? version b then a else b.

(** [all.filter(o => o.active && o.lat === lat && ...)] *)
Definition candidates (la lo da : string) (all : list OverrideRecord)
  : list OverrideRecord :=
  List.filter (fun o => active o && same_key o la lo da) all.

Definition getLatestOverride (f : file_state) (la lo da : string)
  : option OverrideRecord :=
  let all := readOverrides f in
  match candidates la lo da all with
  | [] => None
  | first :: rest => Some (fold_left pick_latest rest first)
  end.

(** The [for (const o of all)] loop of [addOverride]: the running
    [maxVersion] and the records as the loop leaves them. *)
Fixpoint supersede (la lo da : string) (maxVersion : Z)
    (all : list OverrideRecord) : Z * list OverrideRecord :=
  match all with
  | [] => (maxVersion, [])
  | o :: rest =>
      if same_key o la lo da then
        let '(m, rest') := supersede la lo da (Z.max maxVersion (version o)) rest in
        (m, deactivate o :: rest')
      else
        let '(m, rest') := supersede la lo da maxVersion rest in
        (m, o :: rest')
  end.

(** [now] is [new Date().toISOString()].  [maxVersion + 1] is the number
    addition of the code, which is the integer sum while [maxVersion] is
    below 2^53. *)
Definition addOverride (f : file_state) (la lo da : string) (values : jsval)
    (now : string) : file_state * OverrideRecord :=
  let all := readOverrides f in
  let '(maxVersion, all) := supersede la lo da 0 all in
  let newOverride :=
    {| lat := la; lon := lo; date := da; newValues := values;
       updatedAt := now; updatedBy := "anonymous";
       version := maxVersion + 1; active := true |} in
  (writeOverrides (all ++ [newOverride]), newOverride).

(** The loop of [removeOverride]; [removed] aliases the record it last
    switched off, so it is returned with [active = false]. *)
Fixpoint switch_off (la lo da : string) (removed : option OverrideRecord)
    (all : list OverrideRecord) : option OverrideRecord * list OverrideRecord :=
  match all with
  | [] => (removed, [])
  | o :: rest =>
      if active o && same_key o la lo da then
        let '(r, rest') := switch_off la lo da (Some (deactivate o)) rest in
        (r, deactivate o :: rest')
      else
        let '(r, rest') := switch_off la lo da removed rest in
        (r, o :: rest')
  end.

Definition removeOverride (f : file_state) (la lo da : string)
  : file_state * option OverrideRecord :=
  let all := readOverrides f in
  let '(removed, all) := switch_off la lo da None all in
  match removed with
  | Some _ => (writeOverrides all, removed)
  | None => (f, removed)
  end.

(** *** Sequences of [Create] calls and the specification's version rule *)

Record create_call := {
  c_lat : string; c_lon : string; c_date : string;
  c_values : jsval; c_now : string
}.

Definition create (f : file_state) (c : create_call) : file_state :=
  fst (addOverride f (c_lat c) (c_lon c) (c_date c) (c_values c) (c_now c)).

Definition run_creates (f : file_state) (calls : list create_call) : file_state :=
  fold_left create calls f.

Definition call_for (la lo da : string) (c : create_call) : bool :=
  bool_decide (c_lat c = la) && bool_decide (c_lon c = lo)
  && bool_decide (c_date c = da).

(** How many of the calls are for the key [(la, lo, da)]. *)
Definition calls_for (la lo da : string) (calls : list create_call) : Z :=
  Z.of_nat (length (List.filter (call_for la lo da) calls)).

(** The maximum of a list of versions, [d] for the empty list. *)
Definition max_or (d : Z) (versions : list Z) : Z :=
  match versions with
  | [] => d
  | v :: rest => fold_left Z.max rest v
  end.

(** The specification's rule: max(version over all records with this key,
    default 0). *)
Definition spec_max_version (la lo da : string) (all : list OverrideRecord) : Z :=
  max_or 0 (map version (List.filter (fun o => same_key o la lo da) all)).

(** What the loop of [addOverride] leaves of a record. *)
Definition superseded (la lo da : string) (o : OverrideRecord) : OverrideRecord :=
  if same_key o la lo da then deactivate o else o.

(** What the loop of [removeOverride] leaves of a record. *)
Definition switched_off (la lo da : string) (o : OverrideRecord) : OverrideRecord :=
  if active o && same_key o la lo da then deactivate o else o.

(** The state of one key after [n] creations: no version above [n], and
    either nothing active ([n = 0]) or exactly one active record, of
    version [n]. *)
Definition key_state (la lo da : string) (n : Z) (all : list OverrideRecord) : Prop :=
  (forall o, In o all -> same_key o la lo da = true -> version o <= n)
  /\ ((n = 0 /\ candidates la lo da all = [])
      \/ (exists top, candidates la lo da all = [top] /\ version top = n /\ 1 <= n)).

(** *** The [/override] routes *)

Inductive reply_body :=
| ErrorMessage (error : string)
| RecordJSON (o : OverrideRecord)
| EmptyObject
| Removed (removed : bool).

Record response := { status : Z; body : reply_body }.

(** [GET /override]; a parameter is [None] when the query string lacks
    it. *)
Definition handle_get (f : file_state) (qlat qlon qdate : option string)
  : response :=
  if missing qlat || missing qlon || missing qdate then
    {| status := 400; body := ErrorMessage "Missing lat, lon or date parameter" |}
  else
    match getLatestOverride f (default "" qlat) (default "" qlon) (default "" qdate) with
    | Some override => {| status := 200; body := RecordJSON override |}
    | None => {| status := 200; body := EmptyObject |}
    end.

Definition invalid_body : response :=
  {| status := 400; body := ErrorMessage "Invalid JSON body" |}.

Section Handlers.

Variable Number_toString : float -> string.

#[local] Abbreviation String := (String_ Number_toString).

(** [POST /override]; [parsed] is the outcome of
    [JSON.parse(body || '{}')], [None] when it throws.  Whatever is thrown
    inside the [try], by the destructuring of [null] or by [String(...)], is
    answered by the [catch]. *)
Definition handle_post (f : file_state) (parsed : option jsval) (now : string)
  : file_state * response :=
  match parsed with
  | None => (f, invalid_body)
  | Some data =>
      match field data "lat", field data "lon", field data "date",
            field data "values" with
      | Some la, Some lo, Some da, Some values =>
          if negb (truthy la) || negb (truthy lo) || negb (truthy da)
             || negb (truthy values) then
            (f, {| status := 400;
                   body := ErrorMessage "lat, lon, date and values are required" |})
          else if String_throws la || String_throws lo || String_throws da then
            (f, invalid_body)
          else
            let '(f', override) :=
              addOverride f (String la) (String lo) (String da) values now in
            (f', {| status := 201; body := RecordJSON override |})
      | _, _, _, _ => (f, invalid_body)
      end
  end.

(** [DELETE /override] *)
Definition handle_delete (f : file_state) (parsed : option jsval)
  : file_state * response :=
  match parsed with
  | None => (f, invalid_body)
  | Some data =>
      match field data "lat", field data "lon", field data "date" with
      | Some la, Some lo, Some da =>
          if negb (truthy la) || negb (truthy lo) || negb (truthy da) then
            (f, {| status := 400;
                   body := ErrorMessage "lat, lon and date are required" |})
          else if String_throws la || String_throws lo || String_throws da then
            (f, invalid_body)
          else
            let '(f', removed) :=
              removeOverride f (String la) (String lo) (String da) in
            (f', {| status := 200; body := Removed (bool_decide (is_Some removed)) |})
      | _, _, _ => (f, invalid_body)
      end
  end.

End Handlers.

End Store.

(** ** Number operations of the platform used by the browser script *)

Module Num.

Definition of_int (negative_zero : bool) (z : Z) : float :=
  match z with
  | Z0 => if negative_zero then neg_zero else zero
  | Zpos _ => of_uint63 (Uint63Axioms.of_Z z)
  | Zneg p => PrimFloat.opp (of_uint63 (Uint63Axioms.of_Z (Zpos p)))
  end.

(** [hourly.length] as a number. *)
Definition of_nat (n : nat) : float := of_int false (Z.of_nat n).

(** [Math.round(x)]: the integer closest to [x], the one towards +infinity
    on a tie, that is [floor (x + 1/2)] computed exactly; [-0] for
    [-0.5 <= x < 0]; [NaN], the infinities and the zeros are returned as
    they are. *)
Definition Math_round (x : float) : float :=
  match Prim2SF x with
  | S754_finite s m (Zneg k) =>
      let den := 2 ^ Zpos k in
      let num := if s then Zneg m else Zpos m in
      of_int s ((2 * num + den) / (2 * den))
  | _ => x
  end.

(** The integer [n] for which [n / 10] is closest to [m * 2^e], the larger
    one on a tie (step 11 of [Number.prototype.toFixed] with one
    fraction digit). *)
Definition tenths (m : positive) (e : Z) : Z :=
  match e with
  | Zneg k => (20 * Zpos m + 2 ^ Zpos k) / (2 * 2 ^ Zpos k)
  | _ => 10 * Zpos m * 2 ^ e
  end.

Definition at_least_1e21 (m : positive) (e : Z) : bool :=
  match e with
  | Zneg k => 10 ^ 21 * 2 ^ Zpos k <=? Zpos m
  | _ => 10 ^ 21 <=? Zpos m * 2 ^ e
  end.

(** The number that [parseFloat] reads from the decimal text of [n / 10]
    with sign [s]: the binary64 value nearest to it. *)
Definition of_tenths (s : bool) (n : Z) : float :=
  match n with
  | Zpos p => SF2Prim (SFdiv prec emax (S754_finite s p 0) (S754_finite false 10 0))
  | _ => if s then neg_zero else zero
  end.

(** [parseFloat(x.toFixed(1))].  [toFixed] prints [NaN], the infinities and
    numbers of magnitude 1e21 and more the way [String] does, and
    [parseFloat] reads those back unchanged; [-0] prints as ["0.0"]. *)
Definition parseFloat_toFixed1 (x : float) : float :=
  match Prim2SF x with
  | S754_finite s m e =>
      if at_least_1e21 m e then x else of_tenths s (tenths m e)
  | S754_zero _ => zero
  | _ => x
  end.

End Num.

(** ** The browser script: forecast cache, hourly reduction, merge *)

Module Client.
Import Js.

Record Weather := {
  tempC : float;
  humidityPct : float;
  windKph : float;
  precipMm : float;
  conditionText : string;
  conditionIcon : string;
  source : string
}.

(** One element of [weatherDay.hourly].  The numeric fields hold what
    [parseFloat] reads from the entry's text, [weatherCode] what
    [parseInt(condition.weatherCode || "0", 10)] reads, and [weatherDesc]
    is [weatherDesc[0].value] when the entry has one. *)
Record HourlyEntry := {
  h_tempC : float;
  h_humidity : float;
  h_windspeedKmph : float;
  h_precipMM : float;
  weatherDesc : option string;
  weatherCode : float
}.

Record WeatherDay := { day : string; hourly : option (list HourlyEntry) }.

Record Forecast := { weather : option (list WeatherDay) }.

(** What [fetch(url)] followed by [resp.json()] gives: a rejected promise,
    or a response with its [ok] flag and, when its text is JSON, the parsed
    forecast. *)
Inductive fetch_result :=
| Rejected
| Responded (ok : bool) (json : option Forecast).

Inductive error :=
| NetworkError
| FailedToFetchWeather
| InvalidResponseBody
| TypeError
| NoHourlyData
| FailedToFetchOverride.

(** The snapshot object that [fetchWeather] builds (lines 154-162). *)
Definition weather_value (w : Weather) : jsval :=
  JObj [("tempC", JNum (tempC w)); ("humidityPct", JNum (humidityPct w));
        ("windKph", JNum (windKph w)); ("precipMm", JNum (precipMm w));
        ("conditionText", JStr (conditionText w));
        ("conditionIcon", JStr (conditionIcon w)); ("source", JStr (source w))].

(** One value of the [cache] object, [{ data: weather, timestamp: now }]. *)
Record CacheEntry := { data : jsval; timestamp : Z }.

(** The [localStorage] item ["weatherCache"]: not set, text that
    [JSON.parse] rejects, or text written by the script, which is always
    [JSON.stringify(cache)] of an object from cache keys to entries;
    [CacheText cache] is that text. *)
Inductive storage_item :=
| NoItem
| BadText (raw : string)
| CacheText (cache : gmap string CacheEntry).

(** What [JSON.parse] reads back of an entry that [JSON.stringify] wrote. *)
Definition parsed_entry (entry : CacheEntry) : CacheEntry :=
  {| data := JSON_roundtrip (data entry); timestamp := timestamp entry |}.

(** [JSON.parse(localStorage.getItem("weatherCache") || "{}")] inside its
    [try]. *)
Definition read_cache (item : storage_item) : gmap string CacheEntry :=
  match item with
  | CacheText cache => parsed_entry <$> cache
  | NoItem | BadText _ => ∅
  end.

(** The browser as far as [fetchWeather] touches it: the cache item and
    the URLs requested from the forecast provider so far. *)
Record Browser := { weatherCache : storage_item; requested : list string }.

(** [locationData.lat] and [locationData.lon].  The script keeps numbers
    there (the default location, or what [saveLocationData] parsed); the
    functions below are the script on coordinates that a template literal
    and [String(...)] print. *)
Record Location := { loc_lat : jsval; loc_lon : jsval }.

(** Whether both coordinates print.  On a coordinate that does not, the
    template literal of the cache key throws before anything is read or
    requested. *)
Definition printable (loc : Location) : bool :=
  negb (String_throws (loc_lat loc)) && negb (String_throws (loc_lon loc)).

Definition includes (codes : list float) (code : float) : bool :=
  existsb (fun c => PrimFloat.eqb code c) codes.

Definition weatherCodeToIcon (code : float) : string :=
  if PrimFloat.eqb code 113 then "☀️"
  else if includes [116; 119; 122]%float code then "⛅"
  else if includes [143; 248; 260]%float code then "🌫️"
  else if includes [176; 200; 263; 266; 281; 284; 293; 296; 299; 302; 305;
                    308; 311; 314; 353; 356; 359; 386; 389]%float code
  then "🌧️"
  else if includes [179; 227; 230; 317; 320; 323; 326; 329; 332; 335; 338;
                    350; 368; 371; 374; 377; 392; 395]%float code
  then "❄️"
  else "🌥️".

(** The four running sums of the [hourly.forEach] loop. *)
Record Sums := {
  sumTemp : float; sumHumidity : float; sumWind : float; sumPrecip : float
}.

Definition add_entry (acc : Sums) (entry : HourlyEntry) : Sums :=
  {| sumTemp := sumTemp acc + h_tempC entry;
     sumHumidity := sumHumidity acc + h_humidity entry;
     sumWind := sumWind acc + h_windspeedKmph entry;
     sumPrecip := sumPrecip acc + h_precipMM entry |}%float.

Definition sum_entries (hourly : list HourlyEntry) : Sums :=
  fold_left add_entry hourly
    {| sumTemp := 0; sumHumidity := 0; sumWind := 0; sumPrecip := 0 |}%float.

(** [weatherArr.find((item) => item.date === dateString)], and
    [weatherArr[0]] when that finds nothing. *)
Definition pick_day (dateString : string) (weatherArr : list WeatherDay)
  : option WeatherDay :=
  match List.find (fun item => bool_decide (day item = dateString)) weatherArr with
  | Some item => Some item
  | None => head weatherArr
  end.

(** [cache[cacheKey] && now - cache[cacheKey].timestamp < 15 * 60 * 1000],
    and the [data] that is returned when it holds. *)
Definition fresh_data (cache : gmap string CacheEntry) (key : string) (now : Z)
  : option jsval :=
  match cache !! key with
  | Some entry =>
      if now - timestamp entry <? 15 * 60 * 1000 then Some (data entry) else None
  | None => None
  end.

(** *** Vocabulary of the specification *)

(** The freshness window, in milliseconds. *)
Definition window : Z := 900000.

(** The cache has no entry for [key], or one that is [window] old or
    older. *)
Definition absent_or_stale (cache : gmap string CacheEntry) (key : string)
    (now : Z) : Prop :=
  match cache !! key with
  | Some entry => window <= now - timestamp entry
  | None => True
  end.

(** The character [,] (code 44), the separator of the cache key, and a text
    without it. *)
Definition comma : Ascii.ascii :=
  Ascii.Ascii false false true true false true false false.

Definition comma_free (s : string) : bool :=
  forallb (fun c => negb (Ascii.eqb c comma)) (String.list_ascii_of_string s).

(** The sum of a list of numbers, added from the left starting at 0, and
    their arithmetic mean. *)
Definition fsum (l : list float) : float := fold_left PrimFloat.add l 0%float.

Definition mean (l : list float) : float :=
  (fsum l / Num.of_nat (length l))%float.

(** The weather codes that [weatherCodeToIcon] maps, by category, and the
    six icons. *)
Definition mapped_codes : list float :=
  ([113] ++ [116; 119; 122] ++ [143; 248; 260]
   ++ [176; 200; 263; 266; 281; 284; 293; 296; 299; 302; 305;
       308; 311; 314; 353; 356; 359; 386; 389]
   ++ [179; 227; 230; 317; 320; 323; 326; 329; 332; 335; 338;
       350; 368; 371; 374; 377; 392; 395])%float.

Definition icons : list string := ["☀️"; "⛅"; "🌫️"; "🌧️"; "❄️"; "🌥️"].

Section Script.

Variable Number_toString : float -> string.
(** [String.prototype.trim] *)
Variable trim : string -> string.

#[local] Abbreviation String := (String_ Number_toString).

(** Lines 125-162 of the script: the snapshot computed from a day's
    hourly entries; reading a field of a missing midpoint entry would
    throw. *)
Definition reduce_hourly (hourly : list HourlyEntry) : error + Weather :=
  let sums := sum_entries hourly in
  let count := length hourly in
  let avgTemp := Num.parseFloat_toFixed1 (sumTemp sums / Num.of_nat count) in
  let avgHum := Num.Math_round (sumHumidity sums / Num.of_nat count) in
  let avgWind := Num.parseFloat_toFixed1 (sumWind sums / Num.of_nat count) in
  let totalPrecip := Num.parseFloat_toFixed1 (sumPrecip sums) in
  let midIndex := (count / 2)%nat in
  match hourly !! midIndex with
  | None => inl TypeError
  | Some condition =>
      let conditionTextVal :=
        match weatherDesc condition with
        | Some value => trim value
        | None => ""
        end in
      let icon := weatherCodeToIcon (weatherCode condition) in
      inr {| tempC := avgTemp; humidityPct := avgHum; windKph := avgWind;
             precipMm := totalPrecip; conditionText := conditionTextVal;
             conditionIcon := icon; source := "api" |}
  end.

Definition cacheKey (loc : Location) (dateString : string) : string :=
  String (loc_lat loc) +:+ "," +:+ String (loc_lon loc) +:+ "," +:+ dateString.

Definition url (loc : Location) : string :=
  "https://wttr.in/" +:+ String (loc_lat loc) +:+ "," +:+ String (loc_lon loc)
  +:+ "?format=j1".

Definition request (st : Browser) (u : string) : Browser :=
  {| weatherCache := weatherCache st; requested := requested st ++ [u] |}.

(** [localStorage.setItem("weatherCache", JSON.stringify(cache))] *)
Definition setItem (st : Browser) (cache : gmap string CacheEntry) : Browser :=
  {| weatherCache := CacheText cache; requested := requested st |}.

(** Lines 112-166 of [fetchWeather]: the request to the provider, the
    reduction of its answer and the write to the cache. *)
Definition refetch (loc : Location) (dateString : string) (now : Z)
    (upstream : string -> fetch_result) (st : Browser)
    (cache : gmap string CacheEntry) : (error + jsval) * Browser :=
  let st := request st (url loc) in
  match upstream (url loc) with
  | Rejected => (inl NetworkError, st)
  | Responded false _ => (inl FailedToFetchWeather, st)
  | Responded true None => (inl InvalidResponseBody, st)
  | Responded true (Some data) =>
      let weatherArr := default [] (weather data) in
      match pick_day dateString weatherArr with
      | None => (inl TypeError, st)
      | Some weatherDay =>
          let hourly := default [] (hourly weatherDay) in
          if bool_decide (length hourly = 0%nat) then (inl NoHourlyData, st)
          else
            match reduce_hourly hourly with
            | inl e => (inl e, st)
            | inr w =>
                let weather := weather_value w in
                (inr weather,
                 setItem st (<[cacheKey loc dateString :=
                                 {| data := weather; timestamp := now |}]> cache))
            end
      end
  end.

(** [fetchWeather(dateString)] at time [now] (milliseconds), against a
    provider that answers a request for [u] with [upstream u].  A hit
    returns the [data] parsed from the item, a miss the snapshot object just
    built. *)
Definition fetchWeather (loc : Location) (dateString : string) (now : Z)
    (upstream : string -> fetch_result) (st : Browser)
  : (error + jsval) * Browser :=
  let cache := read_cache (weatherCache st) in
  match fresh_data cache (cacheKey loc dateString) now with
  | Some cached => (inr cached, st)
  | None => refetch loc dateString now upstream st cache
  end.

(** [fetchOverride]: the reply of [GET /override] as the script reads
    it, [data && data.newValues ? data : null]. *)
Definition fetchOverride (resp : Store.response)
  : error + option Store.OverrideRecord :=
  if negb ((200 <=? Store.status resp) && (Store.status resp <=? 299)) then
    inl FailedToFetchOverride
  else
    match Store.body resp with
    | Store.RecordJSON o =>
        inr (if truthy (Store.newValues o) then Some o else None)
    | _ => inr None
    end.

(** Lines 226-231: [combined] and [source] as handed to
    [renderWeather]. *)
Definition merge (weather : jsval) (override : option Store.OverrideRecord)
  : gmap string jsval * string :=
  let combined := spread weather in
  match override with
  | Some o =>
      if truthy (Store.newValues o) then
        (spread (Store.newValues o) ∪ combined,
         "Override (v" +:+ pretty (Store.version o) +:+ ")")
      else (combined, "API")
  | None => (combined, "API")
  end.

(** [{ ...weather }] of a snapshot just built. *)
Definition weather_object (w : Weather) : gmap string jsval :=
  list_to_map
    [("tempC", JNum (tempC w)); ("humidityPct", JNum (humidityPct w));
     ("windKph", JNum (windKph w)); ("precipMm", JNum (precipMm w));
     ("conditionText", JStr (conditionText w));
     ("conditionIcon", JStr (conditionIcon w)); ("source", JStr (source w))].

(** The same lines for a snapshot just built. *)
Definition combine (weather : Weather) (override : option Store.OverrideRecord)
  : gmap string jsval * string :=
  merge (weather_value weather) override.

(** The [try] block of [loadWeather] for the day [dateString], with the
    override store behind [GET /override] in state [file]. *)
Definition loadWeather (loc : Location) (dateString : string) (now : Z)
    (upstream : string -> fetch_result) (file : Store.file_state)
    (st : Browser) : (error + gmap string jsval * string) * Browser :=
  match fetchWeather loc dateString now upstream st with
  | (inl e, st) => (inl e, st)
  | (inr weather, st) =>
      let resp :=
        Store.handle_get file (Some (String (loc_lat loc)))
          (Some (String (loc_lon loc))) (Some dateString) in
      match fetchOverride resp with
      | inl e => (inl e, st)
      | inr override => (inr (merge weather override), st)
      end
  end.

End Script.

End Client.

(** ** Sample data for the examples *)

Module Samples.
Import Js Store Client.

(** [Number::toString] on integers of magnitude below 1e21, which are
    printed in decimal digits; a stand-in for the examples, which use it at
    such numbers only. *)
Definition integral_toString (x : float) : string :=
  match Prim2SF x with
  | S754_zero _ => "0"
  | S754_finite s m e =>
      (if s then "-" else "")
      +:+ pretty (match e with
                  | Zneg k => Zpos m / 2 ^ Zpos k
                  | _ => Zpos m * 2 ^ e
                  end)
  | S754_infinity s => if s then "-Infinity" else "Infinity"
  | S754_nan => "NaN"
  end.

Definition sample_body : jsval :=
  JObj [("lat", JNum 17); ("lon", JStr "78.4867"); ("date", JStr "2024-01-01");
        ("values", JObj [("tempC", JNum 28)])].

(** [String.prototype.trim] restricted to the ASCII white space (tab, line
    feed, vertical tab, form feed, carriage return, space); used in the
    examples. *)
Definition is_space (c : Ascii.ascii) : bool :=
  match Ascii.nat_of_ascii c with
  | 9 | 10 | 11 | 12 | 13 | 32 => true
  | _ => false
  end%nat.

Fixpoint trim_start (s : string) : string :=
  match s with
  | EmptyString => EmptyString
  | String c rest => if is_space c then trim_start rest else s
  end.

Fixpoint trim_end (s : string) : string :=
  match s with
  | EmptyString => EmptyString
  | String c rest =>
      let rest' := trim_end rest in
      if is_space c && bool_decide (rest' = "") then EmptyString else String c rest'
  end.

Definition trim_ascii (s : string) : string := trim_end (trim_start s).

Definition sample_entry (t h w p : float) (desc : string) (code : float)
  : HourlyEntry :=
  {| h_tempC := t; h_humidity := h; h_windspeedKmph := w; h_precipMM := p;
     weatherDesc := Some desc; weatherCode := code |}.

(** Three hourly entries: temperatures 1, 1, 2; humidities 40, 41, 41;
    wind speeds 10, 10, 11; precipitation 0.125, 0, 0. *)
Definition sample_hourly : list HourlyEntry :=
  [ sample_entry 1 40 10 0.125 "Clear " 113;
    sample_entry 1 41 10 0 " Sunny " 113;
    sample_entry 2 41 11 0 "Light rain" 296 ]%float.

Definition sample_calls : list create_call :=
  [ {| c_lat := "17.385"; c_lon := "78.4867"; c_date := "2024-01-01";
       c_values := JObj [("tempC", JNum 28)]; c_now := "2024-01-01T06:00:00.000Z" |};
    {| c_lat := "51.5"; c_lon := "-0.12"; c_date := "2024-01-01";
       c_values := JObj []; c_now := "2024-01-01T06:05:00.000Z" |};
    {| c_lat := "17.385"; c_lon := "78.4867"; c_date := "2024-01-01";
       c_values := JObj [("tempC", JNum 30)]; c_now := "2024-01-01T07:00:00.000Z" |} ].

Definition sample_log : list OverrideRecord :=
  [ {| lat := "17.385"; lon := "78.4867"; date := "2024-01-01";
       newValues := JObj [("tempC", JNum 28)];
       updatedAt := "2024-01-01T06:00:00.000Z"; updatedBy := "anonymous";
       version := 1; active := false |};
    {| lat := "51.5"; lon := "-0.12"; date := "2024-01-01";
       newValues := JObj [("humidityPct", JNum 70)];
       updatedAt := "2024-01-01T06:05:00.000Z"; updatedBy := "anonymous";
       version := 1; active := true |} ].

(** A store file edited by hand: its only record has a negative version. *)
Definition edited_log : list OverrideRecord :=
  [ {| lat := "17.385"; lon := "78.4867"; date := "2024-01-01";
       newValues := JObj [("tempC", JNum 28)];
       updatedAt := "2024-01-01T06:00:00.000Z"; updatedBy := "anonymous";
       version := -3; active := false |} ].

Definition sample_weather : Weather :=
  {| tempC := 22.5; humidityPct := 40; windKph := 12; precipMm := 0;
     conditionText := "Sunny"; conditionIcon := "☀️"; source := "api" |}.

Definition sample_override : OverrideRecord :=
  {| lat := "17.385"; lon := "78.4867"; date := "2024-01-01";
     newValues := JObj [("tempC", JNum 30)];
     updatedAt := "2024-01-01T06:00:00.000Z";
     updatedBy := "anonymous"; version := 3; active := true |}.

Definition sample_location : Location :=
  {| loc_lat := JNum 17; loc_lon := JNum 78 |}.

Definition sample_forecast : Forecast :=
  {| weather := Some [ {| day := "2024-01-01"; hourly := Some sample_hourly |} ] |}.

Definition sample_upstream (u : string) : fetch_result :=
  Responded true (Some sample_forecast).

(** No record at all for a numeric latitude of 0: [!lat] rejects it. *)
Definition equator_body : jsval :=
  JObj [("lat", JNum 0); ("lon", JStr "78.4867"); ("date", JStr "2024-01-01");
        ("values", JObj [("tempC", JNum 28)])].

Definition unreachable_upstream (u : string) : fetch_result := Rejected.

Definition new_browser : Browser := {| weatherCache := NoItem; requested := [] |}.

End Samples.

(** ** Sequences of store operations *)

Module StoreOps.
Import Js Store.

Inductive store_op :=
| Create (c : create_call)
| Delete (la lo da : string).

Definition apply_op (f : file_state) (op : store_op) : file_state :=
  match op with
  | Create c => create f c
  | Delete la lo da => fst (removeOverride f la lo da)
  end.

Definition run_ops (f : file_state) (ops : list store_op) : file_state :=
  fold_left apply_op ops f.

(** The creations among [ops] that are for the key [(la, lo, da)], in
    order. *)
Fixpoint creates_for (la lo da : string) (ops : list store_op) : list create_call :=
  match ops with
  | [] => []
  | Create c :: rest =>
      if call_for la lo da c then c :: creates_for la lo da rest
      else creates_for la lo da rest
  | Delete _ _ _ :: rest => creates_for la lo da rest
  end.

(** What the last operation on the key [(la, lo, da)] left in force:
    the call of a creation, nothing after a deletion or when the key was
    never written; [before] is what was in force before [ops]. *)
Fixpoint in_force (la lo da : string) (before : option create_call)
    (ops : list store_op) : option create_call :=
  match ops with
  | [] => before
  | Create c :: rest =>
      in_force la lo da (if call_for la lo da c then Some c else before) rest
  | Delete la' lo' da' :: rest =>
      in_force la lo da
        (if bool_decide ((la', lo', da') = (la, lo, da)) then None else before) rest
  end.

(** The records of one key, in log order. *)
Definition key_records (la lo da : string) (all : list OverrideRecord)
  : list OverrideRecord :=
  List.filter (fun o => same_key o la lo da) all.

(** At most one active record for every key. *)
Definition single_active (all : list OverrideRecord) : Prop :=
  forall la lo da, (length (candidates la lo da all) <= 1)%nat.

(** [o'] is [o] as a later log holds it: the same record, except that it
    may have been switched off. *)
Definition kept_as (o o' : OverrideRecord) : Prop :=
  lat o' = lat o /\ lon o' = lon o /\ date o' = date o
  /\ newValues o' = newValues o /\ updatedAt o' = updatedAt o
  /\ updatedBy o' = updatedBy o /\ version o' = version o
  /\ (active o' = true -> active o = true).

(** The record that a creation call leaves when it is the [n]-th for its
    key. *)
Definition record_of (c : create_call) (n : nat) : OverrideRecord :=
  {| lat := c_lat c; lon := c_lon c; date := c_date c; newValues := c_values c;
     updatedAt := c_now c; updatedBy := "anonymous"; version := Z.of_nat n;
     active := true |}.

Definition in_force_records (held : option create_call) (n : nat)
  : list OverrideRecord :=
  match held with
  | Some c => [record_of c n]
  | None => []
  end.

(** A creation for Hyderabad, one for London, a deletion and a second
    creation for Hyderabad. *)
Definition sample_ops : list store_op :=
  [ Create {| c_lat := "17.385"; c_lon := "78.4867"; c_date := "2024-01-01";
              c_values := JObj [("tempC", JNum 28)];
              c_now := "2024-01-01T06:00:00.000Z" |};
    Create {| c_lat := "51.5"; c_lon := "-0.12"; c_date := "2024-01-01";
              c_values := JObj []; c_now := "2024-01-01T06:05:00.000Z" |};
    Delete "17.385" "78.4867" "2024-01-01";
    Create {| c_lat := "17.385"; c_lon := "78.4867"; c_date := "2024-01-01";
              c_values := JObj [("tempC", JNum 30)];
              c_now := "2024-01-01T07:00:00.000Z" |} ].

End StoreOps.

(** ** The request handler of [weatherio/server.js] *)

Module Server.
Import Js Store.

(** The request as the handler reads it: the method, the path of the URL,
    [parsedUrl.searchParams.get], and the outcome of
    [JSON.parse(body || '{}')] on the request body ([None] when it
    throws). *)
Record request := {
  method : string;
  pathname : string;
  searchParams : string -> option string;
  parsed_body : option jsval
}.

Inductive payload :=
| NoBody
| Json (b : reply_body)
| Health (time : string)
| Text (t : string)
| FileData (data : string).

Record http_response := {
  headers : list (string * string);
  code : Z;
  content : payload
}.

Definition MIME_MAP : list (string * string) :=
  [ (".html", "text/html; charset=UTF-8");
    (".css", "text/css; charset=UTF-8");
    (".js", "text/javascript; charset=UTF-8");
    (".json", "application/json; charset=UTF-8");
    (".png", "image/png");
    (".jpg", "image/jpeg");
    (".jpeg", "image/jpeg");
    (".svg", "image/svg+xml") ].

Fixpoint lookup_ext (ext : string) (table : list (string * string)) : option string :=
  match table with
  | [] => None
  | (e, mime) :: rest => if bool_decide (e = ext) then Some mime else lookup_ext ext rest
  end.

Definition cors_headers : list (string * string) :=
  [ ("Access-Control-Allow-Origin", "*");
    ("Access-Control-Allow-Methods", "GET,POST,DELETE,OPTIONS");
    ("Access-Control-Allow-Headers", "Content-Type") ].

Definition json_type : string * string :=
  ("Content-Type", "application/json; charset=UTF-8").

Definition text_type : string * string :=
  ("Content-Type", "text/plain; charset=UTF-8").

(** [safePath.includes('..')] *)
Definition includes_dotdot (safePath : string) : bool :=
  bool_decide (is_Some (String.index 0 ".." safePath)).

Section Handler.

Variable Number_toString : float -> string.
(** [path.extname(filePath).toLowerCase()] for the file that
    [path.join(__dirname, 'public', p)] names, as a function of [p]; it is
    empty or starts with a dot. *)
Variable extname_lower : string -> string.
(** [fs.readFile] of that file: its data, [None] on an error. *)
Variable readFile : string -> option string.

Definition getMime (p : string) : string :=
  default "application/octet-stream" (lookup_ext (extname_lower p) MIME_MAP).

(** A reply written with [res.writeHead(status, {'Content-Type': ...})]
    after the headers [set] by [res.setHeader]. *)
Definition reply (set : list (string * string)) (type : string * string)
    (r : response) : http_response :=
  {| headers := set ++ [type]; code := status r; content := Json (body r) |}.

(** The callback of [http.createServer], at time [now], with the override
    file in state [f]. *)
Definition server (req : request) (f : file_state) (now : string)
  : file_state * http_response :=
  let api := String.prefix "/override" (pathname req)
             || bool_decide (pathname req = "/health") in
  let set := if api then cors_headers else [] in
  if api && bool_decide (method req = "OPTIONS") then
    (f, {| headers := set; code := 200; content := NoBody |})
  else if bool_decide (pathname req = "/health") then
    (f, {| headers := set ++ [json_type]; code := 200; content := Health now |})
  else if bool_decide (pathname req = "/override") then
    if bool_decide (method req = "GET") then
      (f, reply set json_type
            (handle_get f (searchParams req "lat") (searchParams req "lon")
               (searchParams req "date")))
    else if bool_decide (method req = "POST") then
      let '(f', r) := handle_post Number_toString f (parsed_body req) now in
      (f', reply set json_type r)
    else if bool_decide (method req = "DELETE") then
      let '(f', r) := handle_delete Number_toString f (parsed_body req) in
      (f', reply set json_type r)
    else
      (f, reply set json_type
            {| status := 405; body := ErrorMessage "Method Not Allowed" |})
  else
    let safePath := pathname req in
    if includes_dotdot safePath then
      (f, {| headers := set ++ [text_type]; code := 400; content := Text "Bad Request" |})
    else
      let p := if bool_decide (safePath = "/") then "index.html" else safePath in
      match readFile p with
      | None =>
          (f, {| headers := set ++ [text_type]; code := 404; content := Text "Not Found" |})
      | Some data =>
          (f, {| headers := set ++ [("Content-Type", getMime p)]; code := 200;
                 content := FileData data |})
      end.

End Handler.

End Server.

(** ** The rest of the browser script: location, form handlers *)

Module Session.
Import Js Client.

(** [obj.k = x]: the property is replaced where it stands, or added at the
    end. *)
Fixpoint set_field (k : string) (x : jsval) (fields : list (string * jsval))
  : list (string * jsval) :=
  match fields with
  | [] => [(k, x)]
  | (k', v) :: rest =>
      if bool_decide (k' = k) then (k, x) :: rest else (k', v) :: set_field k x rest
  end.

#[local] Set Warnings "-inexact-float".

Definition DEFAULT_LOCATION : list (string * jsval) :=
  [("lat", JNum 17.385); ("lon", JNum 78.4867); ("tz", JStr "Asia/Kolkata")].

#[local] Set Warnings "inexact-float".

(** The [localStorage] item ["weatherLocation"]: not set (or the empty
    string), text that [JSON.parse] rejects, or the value parsed from it. *)
Inductive location_item :=
| NoLocation
| BadLocation (raw : string)
| StoredLocation (obj : jsval).

(** [obj.lat] on a value that [obj &&] has found truthy. *)
Definition prop (obj : jsval) (k : string) : jsval :=
  default JUndefined (field obj k).

(** [initLocation]: the fields of [locationData]. *)
Definition initLocation (item : location_item) : list (string * jsval) :=
  match item with
  | StoredLocation obj =>
      if truthy obj && truthy (prop obj "lat") && truthy (prop obj "lon") then
        match obj with
        | JObj fields => fields
        | _ => DEFAULT_LOCATION
        end
      else DEFAULT_LOCATION
  | NoLocation | BadLocation _ => DEFAULT_LOCATION
  end.

(** [locationData] as [fetchWeather] and the handlers read it. *)
Definition location_of (locationData : list (string * jsval)) : Location :=
  {| loc_lat := default JUndefined (assoc "lat" locationData);
     loc_lon := default JUndefined (assoc "lon" locationData) |}.

(** [saveLocationData], up to the call of [loadWeather]: [lat] and [lon]
    are [parseFloat(latInput.value)] and [parseFloat(lonInput.value)]; the
    result is the new [locationData] and the item written. *)
Definition saveLocationData (locationData : list (string * jsval)) (lat lon : float)
  : list (string * jsval) * location_item :=
  let locationData := set_field "lon" (JNum lon) (set_field "lat" (JNum lat) locationData) in
  (locationData, StoredLocation (JSON_roundtrip (JObj locationData))).

(** The fields of the update form as the submit handler reads them:
    [parseFloat(updTemp.value)], [parseInt(updHumidity.value, 10)],
    [parseFloat(updWind.value)], [parseFloat(updPrecip.value)] and the text
    [updCondition.value]. *)
Record Form := {
  updTemp : float;
  updHumidity : float;
  updWind : float;
  updPrecip : float;
  updCondition : string
}.

Inductive outcome :=
| Shown (combined : gmap string jsval) (source_label : string)
| LoadError (e : error)
| SaveError
| RemoveError.

(** [resp.ok] *)
Definition ok (r : Store.response) : bool :=
  (200 <=? Store.status r) && (Store.status r <=? 299).

Section Handlers.

Variable Number_toString : float -> string.
Variable trim : string -> string.

#[local] Abbreviation String := (String_ Number_toString).

(** Lines 309-317 and 345-353: the entry of the key is deleted from the
    cache and the cache written back. *)
Definition invalidate (loc : Location) (dateString : string) (st : Browser)
  : Browser :=
  let cache := read_cache (weatherCache st) in
  setItem st (delete (cacheKey Number_toString loc dateString) cache).

(** Whether [renderWeather(data, source)] runs through (lines 243-258):
    [toFixed] is called on [data.tempC], [data.windKph] and [data.precipMm],
    which throws a TypeError unless they are numbers; [humidityPct],
    [conditionIcon] and [conditionText] are assigned to [textContent], which
    converts them to strings ([null] and [undefined] are accepted). *)
Definition renders (data : gmap string jsval) : bool :=
  let has_toFixed k :=
    match data !! k with
    | Some (JNum _) => true
    | _ => false
    end in
  let converts k := negb (String_throws (default JUndefined (data !! k))) in
  has_toFixed "tempC" && converts "humidityPct" && has_toFixed "windKph"
  && has_toFixed "precipMm" && converts "conditionIcon" && converts "conditionText".

(** What the page shows at the end of [loadWeather]: [renderWeather] is
    called inside the [try], so an exception it throws is reported like a
    failed fetch and the card is hidden. *)
Definition shown (loaded : error + gmap string jsval * string) : outcome :=
  match loaded with
  | inl e => LoadError e
  | inr (combined, source_label) =>
      if renders combined then Shown combined source_label else LoadError TypeError
  end.

Definition form_values (form : Form) : jsval :=
  JObj [("tempC", JNum (updTemp form)); ("humidityPct", JNum (updHumidity form));
        ("windKph", JNum (updWind form)); ("precipMm", JNum (updPrecip form));
        ("conditionText", JStr (trim (updCondition form)))].

(** The submit handler of the update form for the day [dateString]: the
    POST to the store (whose clock reads [stamp]), and, when it succeeds, the
    invalidation of the cache entry and [loadWeather] at time [now].  The
    handler and [loadWeather] each read the date from the clock; they are
    taken to read the same day, and the store to be reachable. *)
Definition save_override (loc : Location) (dateString : string) (form : Form)
    (stamp : string) (now : Z) (upstream : string -> fetch_result)
    (file : Store.file_state) (st : Browser)
  : outcome * Store.file_state * Browser :=
  let sent :=
    JSON_roundtrip
      (JObj [("lat", JStr (String (loc_lat loc))); ("lon", JStr (String (loc_lon loc)));
             ("date", JStr dateString); ("values", form_values form)]) in
  let '(file, resp) := Store.handle_post Number_toString file (Some sent) stamp in
  if negb (ok resp) then (SaveError, file, st)
  else
    let st := invalidate loc dateString st in
    let '(loaded, st) :=
      loadWeather Number_toString trim loc dateString now upstream file st in
    (shown loaded, file, st).

(** The click handler of the remove button. *)
Definition remove_override (loc : Location) (dateString : string) (now : Z)
    (upstream : string -> fetch_result) (file : Store.file_state) (st : Browser)
  : outcome * Store.file_state * Browser :=
  let sent :=
    JSON_roundtrip
      (JObj [("lat", JStr (String (loc_lat loc))); ("lon", JStr (String (loc_lon loc)));
             ("date", JStr dateString)]) in
  let '(file, resp) := Store.handle_delete Number_toString file (Some sent) in
  if negb (ok resp) then (RemoveError, file, st)
  else
    let st := invalidate loc dateString st in
    let '(loaded, st) :=
      loadWeather Number_toString trim loc dateString now upstream file st in
    (shown loaded, file, st).

End Handlers.

End Session.

(** ** Sample requests and form input for the examples *)

Module Scenarios.
Import Js Store StoreOps Server Client Session Samples.

Definition no_extension (p : string) : string := "".

Definition no_files (p : string) : option string := None.

Definition no_params (name : string) : option string := None.

Definition put_request : Server.request :=
  {| method := "PUT"; pathname := "/override"; searchParams := no_params;
     parsed_body := None |}.

Definition post_request : Server.request :=
  {| method := "POST"; pathname := "/override"; searchParams := no_params;
     parsed_body := Some sample_body |}.


Definition sample_form : Form :=
  {| updTemp := 30; updHumidity := nan; updWind := 12; updPrecip := 0;
     updCondition := " Hot " |}.

(** A store with an active override for the sample location (17, 78). *)
Definition sample_file : file_state :=
  fst (addOverride Absent "17" "78" "2024-01-01" (JObj [("tempC", JNum 30)])
         "2024-01-01T06:00:00.000Z").

End Scenarios.

(** * Properties of the number operations *)

Module NumFacts.

(** [tenths] rounds to the nearest tenth, upwards on a tie:
    [n - 1/2 <= 10 * m / 2^k < n + 1/2]. *)
Lemma tenths_nearest (m k : positive) :
  let n := Num.tenths m (Zneg k) in
  2 * n * 2 ^ Zpos k - 2 ^ Zpos k <= 20 * Zpos m
  /\ 20 * Zpos m < 2 * n * 2 ^ Zpos k + 2 ^ Zpos k.
Proof.
  cbn zeta. unfold Num.tenths.
  assert (0 < 2 ^ Zpos k) as Hpos by (apply Z.pow_pos_nonneg; lia).
  set (d := 2 ^ Zpos k) in *.
  pose proof (Z.div_mod (20 * Zpos m + d) (2 * d)) as Hdm.
  pose proof (Z.mod_pos_bound (20 * Zpos m + d) (2 * d)) as Hb.
  lia.
Qed.

Example toFixed1_tie_goes_up : Num.parseFloat_toFixed1 0.25 = Num.of_tenths false 3.
Proof. reflexivity. Qed.

Example toFixed1_negative : Num.parseFloat_toFixed1 (-1.25) = Num.of_tenths true 13.
Proof. reflexivity. Qed.

Example toFixed1_large : Num.parseFloat_toFixed1 1e21 = 1e21%float.
Proof. reflexivity. Qed.

Example Math_round_half_up : Num.Math_round 2.5 = 3%float.
Proof. reflexivity. Qed.

Example Math_round_negative_half : Num.Math_round (-2.5) = (-2)%float.
Proof. reflexivity. Qed.

Example Math_round_negative_zero : Num.Math_round (-0.5) = neg_zero.
Proof. reflexivity. Qed.

End NumFacts.

(** * Properties of the override store *)

Module StoreFacts.
Import Js Store Samples.

Lemma same_key_spec o la lo da :
  same_key o la lo da = true <-> lat o = la /\ lon o = lo /\ date o = da.
Proof.
  unfold same_key. rewrite !andb_true_iff, !bool_decide_eq_true. tauto.
Qed.

Lemma same_key_deactivate o la lo da :
  same_key (deactivate o) la lo da = same_key o la lo da.
Proof. reflexivity. Qed.

Lemma same_key_deactivate_or o la lo da la' lo' da' :
  same_key (superseded la' lo' da' o) la lo da = same_key o la lo da.
Proof. unfold superseded. by destruct (same_key o la' lo' da'). Qed.

Lemma version_superseded o la lo da :
  version (superseded la lo da o) = version o.
Proof. unfold superseded. by destruct (same_key o la lo da). Qed.

Lemma same_key_other o la lo da la' lo' da' :
  same_key o la lo da = true -> (la, lo, da) <> (la', lo', da') ->
  same_key o la' lo' da' = false.
Proof.
  intros H Hne. destruct (same_key o la' lo' da') eqn:E'; [|reflexivity].
  apply same_key_spec in H as (? & ? & ?), E' as (? & ? & ?). congruence.
Qed.

Lemma superseded_hit o la lo da :
  same_key o la lo da = true -> superseded la lo da o = deactivate o.
Proof. unfold superseded. by intros ->. Qed.

Lemma superseded_miss o la lo da :
  same_key o la lo da = false -> superseded la lo da o = o.
Proof. unfold superseded. by intros ->. Qed.

(** The two results of the loop of [addOverride], taken apart. *)
Lemma supersede_snd la lo da m all :
  snd (supersede la lo da m all) = map (superseded la lo da) all.
Proof.
  revert m. induction all as [|o rest IH]; intros m; simpl; [reflexivity|].
  unfold superseded at 1.
  destruct (same_key o la lo da).
  - specialize (IH (Z.max m (version o))).
    destruct (supersede la lo da (Z.max m (version o)) rest); simpl in *. by f_equal.
  - specialize (IH m). destruct (supersede la lo da m rest); simpl in *. by f_equal.
Qed.

Lemma supersede_fst_ge la lo da m all : m <= fst (supersede la lo da m all).
Proof.
  revert m. induction all as [|o rest IH]; intros m; simpl; [lia|].
  destruct (same_key o la lo da).
  - specialize (IH (Z.max m (version o))).
    destruct (supersede la lo da (Z.max m (version o)) rest); simpl in *. lia.
  - specialize (IH m). destruct (supersede la lo da m rest); simpl in *. lia.
Qed.

Lemma supersede_fst_bound la lo da m all o :
  In o all -> same_key o la lo da = true ->
  version o <= fst (supersede la lo da m all).
Proof.
  revert m. induction all as [|o' rest IH]; intros m Hin Hk; simpl; [destruct Hin|].
  destruct Hin as [-> | Hin].
  - rewrite Hk.
    pose proof (supersede_fst_ge la lo da (Z.max m (version o)) rest) as Hge.
    destruct (supersede la lo da (Z.max m (version o)) rest); simpl in *. lia.
  - destruct (same_key o' la lo da).
    + specialize (IH (Z.max m (version o')) Hin Hk).
      destruct (supersede la lo da (Z.max m (version o')) rest); simpl in *. lia.
    + specialize (IH m Hin Hk).
      destruct (supersede la lo da m rest); simpl in *. lia.
Qed.

Lemma supersede_fst_attained la lo da m all :
  fst (supersede la lo da m all) = m
  \/ exists o, In o all /\ same_key o la lo da = true
               /\ fst (supersede la lo da m all) = version o.
Proof.
  revert m. induction all as [|o rest IH]; intros m; simpl; [by left|].
  destruct (same_key o la lo da) eqn:Hk.
  - specialize (IH (Z.max m (version o))).
    destruct (supersede la lo da (Z.max m (version o)) rest) as [m' rest']; simpl in *.
    destruct IH as [-> | (o' & Hin & Hk' & ->)].
    + destruct (Z.max_spec m (version o)) as [[_ ->] | [_ ->]]; [|by left].
      right. exists o. auto.
    + right. exists o'. auto.
  - specialize (IH m).
    destruct (supersede la lo da m rest) as [m' rest']; simpl in *.
    destruct IH as [-> | (o' & Hin & Hk' & ->)]; [by left|].
    right. exists o'. auto.
Qed.

Lemma addOverride_unfold f la lo da values now :
  addOverride f la lo da values now =
  let r := {| lat := la; lon := lo; date := da; newValues := values;
              updatedAt := now; updatedBy := "anonymous";
              version := fst (supersede la lo da 0 (readOverrides f)) + 1;
              active := true |} in
  (Holds (map (superseded la lo da) (readOverrides f) ++ [r]), r).
Proof.
  unfold addOverride. rewrite <- supersede_snd with (m := 0).
  destruct (supersede la lo da 0 (readOverrides f)); reflexivity.
Qed.

Lemma candidates_app la lo da l1 l2 :
  candidates la lo da (l1 ++ l2) = candidates la lo da l1 ++ candidates la lo da l2.
Proof. apply List.filter_app. Qed.

(** After the loop of [addOverride] for a key no earlier record of that key
    is active. *)
Lemma candidates_superseded la lo da all :
  candidates la lo da (map (superseded la lo da) all) = [].
Proof.
  unfold candidates.
  induction all as [|o rest IH]; cbn [map List.filter]; [reflexivity|].
  destruct (same_key o la lo da) eqn:Hk.
  - rewrite (superseded_hit _ _ _ _ Hk). exact IH.
  - rewrite (superseded_miss _ _ _ _ Hk), Hk, andb_false_r. exact IH.
Qed.

(** The loop of [addOverride] for another key leaves the candidates of this
    key as they are. *)
Lemma candidates_superseded_other la lo da la' lo' da' all :
  (la, lo, da) <> (la', lo', da') ->
  candidates la lo da (map (superseded la' lo' da') all) = candidates la lo da all.
Proof.
  intros Hne. unfold candidates.
  induction all as [|o rest IH]; cbn [map List.filter]; [reflexivity|].
  destruct (same_key o la' lo' da') eqn:Hk'.
  - rewrite (superseded_hit _ _ _ _ Hk'), same_key_deactivate.
    rewrite (same_key_other _ _ _ _ _ _ _ Hk') by congruence.
    rewrite !andb_false_r. exact IH.
  - by rewrite (superseded_miss _ _ _ _ Hk'), IH.
Qed.

Lemma candidates_In la lo da all o :
  In o (candidates la lo da all) <->
  In o all /\ active o = true /\ same_key o la lo da = true.
Proof. unfold candidates. rewrite List.filter_In, andb_true_iff. tauto. Qed.

Lemma call_for_spec la lo da c :
  call_for la lo da c = true <-> (c_lat c, c_lon c, c_date c) = (la, lo, da).
Proof.
  unfold call_for. rewrite !andb_true_iff, !bool_decide_eq_true.
  split; [intros [[-> ->] ->]; reflexivity | intros [= -> -> ->]; auto].
Qed.

(** The version that [addOverride] assigns in a store where the key has
    seen [n] creations. *)
Lemma key_state_next_version la lo da n all :
  key_state la lo da n all -> fst (supersede la lo da 0 all) = n.
Proof.
  intros [Hle Hst].
  pose proof (supersede_fst_ge la lo da 0 all) as Hge.
  assert (fst (supersede la lo da 0 all) <= n) as Hup.
  { destruct (supersede_fst_attained la lo da 0 all) as [-> | (o & Hin & Hk & ->)].
    - destruct Hst as [[-> _] | (_ & _ & _ & ?)]; lia.
    - by apply Hle. }
  destruct Hst as [[-> _] | (top & Hc & <- & _)]; [lia|].
  assert (In top (candidates la lo da all)) as Hin by (rewrite Hc; by left).
  apply candidates_In in Hin as (Hin & _ & Hk).
  pose proof (supersede_fst_bound la lo da 0 all top Hin Hk). lia.
Qed.

Lemma key_state_create_same la lo da n f c :
  call_for la lo da c = true ->
  key_state la lo da n (readOverrides f) ->
  key_state la lo da (n + 1) (readOverrides (create f c)).
Proof.
  intros [= <- <- <-]%call_for_spec Hst.
  pose proof (key_state_next_version _ _ _ _ _ Hst) as Hv.
  unfold create. rewrite addOverride_unfold. cbn [fst readOverrides].
  rewrite Hv. destruct Hst as [Hle Hst]. split.
  - intros o [Hin | [<- | []]]%in_app_or Hk; cbn [version]; [|lia].
    apply in_map_iff in Hin as (o' & <- & Hin).
    rewrite same_key_deactivate_or in Hk.
    specialize (Hle o' Hin Hk).
    unfold superseded. destruct (same_key o' _ _ _); cbn [version deactivate]; lia.
  - right. eexists. rewrite candidates_app, candidates_superseded. cbn.
    assert (same_key
              {| lat := c_lat c; lon := c_lon c; date := c_date c;
                 newValues := c_values c; updatedAt := c_now c;
                 updatedBy := "anonymous"; version := n + 1; active := true |}
              (c_lat c) (c_lon c) (c_date c) = true) as ->
      by (by apply same_key_spec).
    split; [reflexivity|]. cbn [version]. split; [reflexivity|].
    destruct Hst as [[-> _] | (_ & _ & _ & ?)]; lia.
Qed.

Lemma key_state_create_other la lo da n f c :
  call_for la lo da c = false ->
  key_state la lo da n (readOverrides f) ->
  key_state la lo da n (readOverrides (create f c)).
Proof.
  intros Hc [Hle Hst].
  assert ((la, lo, da) <> (c_lat c, c_lon c, c_date c)) as Hne.
  { intros Heq. symmetry in Heq. apply call_for_spec in Heq. congruence. }
  assert (same_key
            {| lat := c_lat c; lon := c_lon c; date := c_date c;
               newValues := c_values c; updatedAt := c_now c;
               updatedBy := "anonymous";
               version := fst (supersede (c_lat c) (c_lon c) (c_date c) 0
                                 (readOverrides f)) + 1;
               active := true |} la lo da = false) as Hnew.
  { apply not_true_is_false. intros (? & ? & ?)%same_key_spec.
    apply Hne. cbn in *. congruence. }
  unfold create. rewrite addOverride_unfold. cbn [fst readOverrides].
  set (r := Build_OverrideRecord _ _ _ _ _ _ _ _) in *.
  assert (candidates la lo da [r] = []) as Hr.
  { unfold candidates. cbn [List.filter]. by rewrite Hnew, andb_false_r. }
  split.
  - intros o [Hin | [<- | []]]%in_app_or Hk; [|congruence].
    apply in_map_iff in Hin as (o' & <- & Hin).
    rewrite same_key_deactivate_or in Hk. rewrite version_superseded. by apply Hle.
  - rewrite candidates_app, candidates_superseded_other, Hr, app_nil_r by done.
    exact Hst.
Qed.

Lemma calls_for_cons la lo da c calls :
  calls_for la lo da (c :: calls) =
  (if call_for la lo da c then 1 else 0) + calls_for la lo da calls.
Proof.
  unfold calls_for. cbn [List.filter].
  destruct (call_for la lo da c); cbn [length]; lia.
Qed.

Lemma run_creates_key_state la lo da calls :
  forall f n,
    key_state la lo da n (readOverrides f) ->
    key_state la lo da (n + calls_for la lo da calls)
      (readOverrides (run_creates f calls)).
Proof.
  induction calls as [|c calls IH]; intros f n Hst.
  - unfold calls_for. cbn. by rewrite Z.add_0_r.
  - rewrite calls_for_cons. cbn [run_creates fold_left].
    destruct (call_for la lo da c) eqn:Hc.
    + rewrite Z.add_assoc. apply IH. by apply key_state_create_same.
    + rewrite Z.add_0_l. apply IH. by apply key_state_create_other.
Qed.

Lemma key_state_empty la lo da : key_state la lo da 0 [].
Proof. split; [intros o []|]. left. done. Qed.

(** C1. [addOverride] switches off every stored record of the key, whether
    it was active or not, leaves the records of other keys alone, appends
    exactly one record, active and carrying the given values, and returns
    it.  Consequently, from a store that reads as empty, after any
    sequence of creations of which [N >= 1] are for a key (the others for
    other keys, no deletion), exactly one record of that key is active and
    its version is [N]. *)
Theorem create_supersedes_and_appends
    (f : file_state) (la lo da : string) (values : jsval) (now : string)
    (start : file_state) (calls : list create_call) :
  let all := readOverrides f in
  let created := addOverride f la lo da values now in
  (exists old,
      readOverrides (fst created) = old ++ [snd created]
      /\ length old = length all
      /\ (forall i o, all !! i = Some o ->
            exists o', old !! i = Some o'
              /\ (same_key o la lo da = true -> o' = deactivate o /\ active o' = false)
              /\ (same_key o la lo da = false -> o' = o))
      /\ active (snd created) = true
      /\ newValues (snd created) = values
      /\ (lat (snd created), lon (snd created), date (snd created)) = (la, lo, da))
  /\ (readOverrides start = [] ->
      1 <= calls_for la lo da calls ->
      exists top,
        candidates la lo da (readOverrides (run_creates start calls)) = [top]
        /\ version top = calls_for la lo da calls).
Proof.
  cbn zeta. split.
  - rewrite addOverride_unfold. cbn [fst snd readOverrides].
    eexists. split; [reflexivity|]. split; [apply length_map|].
    split; [|done].
    intros i o Hi. exists (superseded la lo da o). split.
    + by rewrite list_lookup_fmap, Hi.
    + split; intros Hk.
      * by rewrite (superseded_hit _ _ _ _ Hk).
      * by rewrite (superseded_miss _ _ _ _ Hk).
  - intros Hstart Hn.
    pose proof (run_creates_key_state la lo da calls start 0) as Hst.
    rewrite Hstart, Z.add_0_l in Hst. specialize (Hst (key_state_empty _ _ _)).
    destruct Hst as [_ [[Hz _] | (top & Hc & Hv & _)]]; [lia|].
    exists top. by split.
Qed.

Lemma create_supersedes_and_appends_witness :
  exists top,
    candidates "17.385" "78.4867" "2024-01-01"
      (readOverrides (run_creates Absent sample_calls)) = [top]
    /\ version top = 2.
Proof.
  apply (proj2 (create_supersedes_and_appends Absent "17.385" "78.4867" "2024-01-01"
                  (JObj []) "" Absent sample_calls)).
  - reflexivity.
  - vm_compute. discriminate.
Defined.

(** *** [getLatestOverride] *)

Lemma pick_latest_cases a b :
  (pick_latest a b = a \/ pick_latest a b = b)
  /\ version a <= version (pick_latest a b)
  /\ version b <= version (pick_latest a b).
Proof.
  unfold pick_latest. destruct (Z.gtb_spec (version a) (version b)).
  - split; [by left | lia].
  - split; [by right | lia].
Qed.

Lemma reduce_pick_latest_In rest :
  forall first, In (fold_left pick_latest rest first) (first :: rest).
Proof.
  induction rest as [|b rest IH]; intros first; cbn [fold_left]; [by left|].
  destruct (IH (pick_latest first b)) as [Heq | Hin].
  - rewrite <- Heq.
    destruct (pick_latest_cases first b) as [[-> | ->] _]; [by left | right; by left].
  - right. by right.
Qed.

Lemma reduce_pick_latest_max rest :
  forall first c, In c (first :: rest) ->
    version c <= version (fold_left pick_latest rest first).
Proof.
  induction rest as [|b rest IH]; intros first c Hin; cbn [fold_left].
  - destruct Hin as [<- | []]. lia.
  - destruct (pick_latest_cases first b) as (_ & Ha & Hb).
    pose proof (IH (pick_latest first b) (pick_latest first b) (or_introl eq_refl)) as Hp.
    destruct Hin as [<- | [<- | Hin]]; [lia | lia |].
    apply IH. by right.
Qed.

(** C3. [getLatestOverride] returns an active record of the key whose
    version no other active record of the key exceeds, also when several
    records of the key are active; it returns nothing exactly when the key
    has no active record.  It only reads the store: the function yields no
    new file state. *)
Theorem getLatestOverride_highest_active
    (f : file_state) (la lo da : string) :
  match getLatestOverride f la lo da with
  | Some top =>
      In top (readOverrides f) /\ active top = true
      /\ (lat top, lon top, date top) = (la, lo, da)
      /\ (forall o, In o (readOverrides f) -> active o = true ->
            (lat o, lon o, date o) = (la, lo, da) -> version o <= version top)
  | None =>
      forall o, In o (readOverrides f) ->
        (lat o, lon o, date o) = (la, lo, da) -> active o = false
  end.
Proof.
  unfold getLatestOverride.
  destruct (candidates la lo da (readOverrides f)) as [|first rest] eqn:Hc.
  - intros o Hin [= Hla Hlo Hda]. apply not_true_is_false. intros Ha.
    assert (In o (candidates la lo da (readOverrides f))) as Hin'.
    { apply candidates_In. by rewrite same_key_spec. }
    rewrite Hc in Hin'. destruct Hin'.
  - pose proof (reduce_pick_latest_In rest first) as Hin.
    rewrite <- Hc in Hin. apply candidates_In in Hin as (Hin & Ha & Hk).
    apply same_key_spec in Hk as (-> & -> & ->).
    repeat split; [done | done |].
    intros o Ho Hact [= Hla Hlo Hda].
    apply reduce_pick_latest_max. rewrite <- Hc. apply candidates_In.
    by rewrite same_key_spec.
Qed.

(** *** [removeOverride] *)

Lemma switched_off_hit o la lo da :
  active o && same_key o la lo da = true -> switched_off la lo da o = deactivate o.
Proof. unfold switched_off. by intros ->. Qed.

Lemma switched_off_miss o la lo da :
  active o && same_key o la lo da = false -> switched_off la lo da o = o.
Proof. unfold switched_off. by intros ->. Qed.

Lemma version_switched_off o la lo da :
  version (switched_off la lo da o) = version o.
Proof. unfold switched_off. by destruct (active o && same_key o la lo da). Qed.

Lemma same_key_switched_off o la lo da la' lo' da' :
  same_key (switched_off la' lo' da' o) la lo da = same_key o la lo da.
Proof. unfold switched_off. by destruct (active o && same_key o la' lo' da'). Qed.

Lemma switch_off_snd la lo da removed all :
  snd (switch_off la lo da removed all) = map (switched_off la lo da) all.
Proof.
  revert removed. induction all as [|o rest IH]; intros removed; cbn [switch_off map];
    [reflexivity|].
  destruct (active o && same_key o la lo da) eqn:Hk.
  - rewrite (switched_off_hit _ _ _ _ Hk). specialize (IH (Some (deactivate o))).
    destruct (switch_off la lo da (Some (deactivate o)) rest); cbn in *. by f_equal.
  - rewrite (switched_off_miss _ _ _ _ Hk). specialize (IH removed).
    destruct (switch_off la lo da removed rest); cbn in *. by f_equal.
Qed.

(** [removed] ends up as the last active record of the key, switched off. *)
Lemma switch_off_fst la lo da removed all :
  fst (switch_off la lo da removed all) =
  match last (candidates la lo da all) with
  | Some o => Some (deactivate o)
  | None => removed
  end.
Proof.
  revert removed. unfold candidates.
  induction all as [|o rest IH]; intros removed; cbn [switch_off List.filter];
    [reflexivity|].
  destruct (active o && same_key o la lo da) eqn:Hk.
  - specialize (IH (Some (deactivate o))).
    destruct (switch_off la lo da (Some (deactivate o)) rest); cbn [fst] in *.
    rewrite IH, last_cons. by destruct (last _).
  - specialize (IH removed).
    by destruct (switch_off la lo da removed rest).
Qed.

Lemma removeOverride_unfold f la lo da :
  removeOverride f la lo da =
  match last (candidates la lo da (readOverrides f)) with
  | Some o => (Holds (map (switched_off la lo da) (readOverrides f)),
               Some (deactivate o))
  | None => (f, None)
  end.
Proof.
  unfold removeOverride.
  pose proof (switch_off_fst la lo da None (readOverrides f)) as H1.
  pose proof (switch_off_snd la lo da None (readOverrides f)) as H2.
  destruct (switch_off la lo da None (readOverrides f)) as [removed all'].
  cbn [fst snd] in *. subst.
  by destruct (last (candidates la lo da (readOverrides f))).
Qed.

Lemma switched_off_id la lo da all :
  candidates la lo da all = [] -> map (switched_off la lo da) all = all.
Proof.
  unfold candidates. induction all as [|o rest IH]; cbn [List.filter map]; [done|].
  destruct (active o && same_key o la lo da) eqn:Hk; [done|].
  intros Hc. by rewrite (switched_off_miss _ _ _ _ Hk), IH.
Qed.

Lemma candidates_switched_off la lo da all :
  candidates la lo da (map (switched_off la lo da) all) = [].
Proof.
  unfold candidates. induction all as [|o rest IH]; cbn [List.filter map]; [done|].
  destruct (active o && same_key o la lo da) eqn:Hk.
  - rewrite (switched_off_hit _ _ _ _ Hk). exact IH.
  - rewrite (switched_off_miss _ _ _ _ Hk), Hk. exact IH.
Qed.

(** C4. [removeOverride] switches off every active record of the key and
    nothing else, returns one of the records it switched off (as stored:
    inactive), appends nothing and keeps every version; when the key has no
    active record it returns nothing and neither the file nor any record
    changes. *)
Theorem removeOverride_deactivates (f : file_state) (la lo da : string) :
  let all := readOverrides f in
  let after := readOverrides (fst (removeOverride f la lo da)) in
  length after = length all
  /\ map version after = map version all
  /\ (forall i o, all !! i = Some o ->
        exists o', after !! i = Some o'
          /\ (active o = true -> (lat o, lon o, date o) = (la, lo, da) ->
              o' = deactivate o /\ active o' = false)
          /\ (active o = false \/ (lat o, lon o, date o) <> (la, lo, da) -> o' = o))
  /\ match snd (removeOverride f la lo da) with
     | Some removed =>
         In removed after
         /\ exists o, In o all /\ active o = true
              /\ (lat o, lon o, date o) = (la, lo, da) /\ removed = deactivate o
     | None =>
         (forall o, In o all -> (lat o, lon o, date o) = (la, lo, da) ->
            active o = false)
         /\ fst (removeOverride f la lo da) = f
     end
  /\ (candidates la lo da all = [] ->
      removeOverride f la lo da = (f, None)).
Proof.
  cbn zeta. rewrite removeOverride_unfold.
  assert (forall i o, readOverrides f !! i = Some o ->
            exists o', map (switched_off la lo da) (readOverrides f) !! i = Some o'
              /\ (active o = true -> (lat o, lon o, date o) = (la, lo, da) ->
                  o' = deactivate o /\ active o' = false)
              /\ (active o = false \/ (lat o, lon o, date o) <> (la, lo, da) -> o' = o))
    as Hpoint.
  { intros i o Hi. exists (switched_off la lo da o). split.
    - by rewrite list_lookup_fmap, Hi.
    - split.
      + intros Ha [= Hla Hlo Hda]. rewrite switched_off_hit; [done|].
        rewrite Ha. by apply same_key_spec.
      + intros Hno. apply switched_off_miss. apply not_true_is_false.
        intros [Ha Hk]%andb_true_iff. apply same_key_spec in Hk as (? & ? & ?).
        destruct Hno as [Hno | Hno]; [congruence | apply Hno; congruence]. }
  destruct (last (candidates la lo da (readOverrides f))) as [o|] eqn:Hlast;
    cbn [fst snd readOverrides].
  - assert (In o (candidates la lo da (readOverrides f))) as Hin.
    { apply list_elem_of_In. by apply last_Some_elem_of. }
    split; [apply length_map|].
    split; [rewrite map_map; apply map_ext; intros; apply version_switched_off|].
    split; [exact Hpoint|].
    split.
    + apply candidates_In in Hin as (Hin & Ha & Hk). split.
      * apply in_map_iff. exists o. split; [|done].
        apply switched_off_hit. by rewrite Ha, Hk.
      * exists o. apply same_key_spec in Hk as (? & ? & ?).
        repeat split; [done | done | congruence].
    + intros Hc. rewrite Hc in Hin. destruct Hin.
  - apply last_None in Hlast.
    split; [done|]. split; [done|].
    split.
    { intros i o Hi. destruct (Hpoint i o Hi) as (o' & Ho' & H1 & H2).
      rewrite (switched_off_id _ _ _ _ Hlast) in Ho'. eauto. }
    split; [|done]. split; [|done].
    intros o Hin [= Hla Hlo Hda]. apply not_true_is_false. intros Ha.
    assert (In o (candidates la lo da (readOverrides f))) as Hin'.
    { apply candidates_In. by rewrite same_key_spec. }
    rewrite Hlast in Hin'. destruct Hin'.
Qed.

Lemma removeOverride_deactivates_witness :
  removeOverride (Holds sample_log) "17.385" "78.4867" "2024-01-01"
  = (Holds sample_log, None).
Proof.
  apply (removeOverride_deactivates (Holds sample_log) "17.385" "78.4867" "2024-01-01").
  reflexivity.
Defined.

(** *** Version numbering *)

Lemma supersede_fst_fold la lo da m all :
  fst (supersede la lo da m all) =
  fold_left Z.max (map version (List.filter (fun o => same_key o la lo da) all)) m.
Proof.
  revert m. induction all as [|o rest IH]; intros m; cbn [supersede List.filter];
    [reflexivity|].
  destruct (same_key o la lo da).
  - specialize (IH (Z.max m (version o))).
    by destruct (supersede la lo da (Z.max m (version o)) rest).
  - specialize (IH m). by destruct (supersede la lo da m rest).
Qed.

Lemma supersede_fst_app la lo da m l1 l2 :
  fst (supersede la lo da m (l1 ++ l2)) =
  fst (supersede la lo da (fst (supersede la lo da m l1)) l2).
Proof.
  rewrite !supersede_fst_fold, List.filter_app, map_app. apply fold_left_app.
Qed.

(** The running maximum only looks at keys and versions, which neither loop
    changes. *)
Lemma supersede_fst_map (g : OverrideRecord -> OverrideRecord) la lo da m all :
  (forall o, same_key (g o) la lo da = same_key o la lo da) ->
  (forall o, version (g o) = version o) ->
  fst (supersede la lo da m (map g all)) = fst (supersede la lo da m all).
Proof.
  intros Hk Hv. revert m.
  induction all as [|o rest IH]; intros m; cbn [supersede map]; [reflexivity|].
  rewrite Hk, Hv. destruct (same_key o la lo da).
  - specialize (IH (Z.max m (version o))).
    destruct (supersede la lo da (Z.max m (version o)) (map g rest)),
             (supersede la lo da (Z.max m (version o)) rest); done.
  - specialize (IH m).
    destruct (supersede la lo da m (map g rest)), (supersede la lo da m rest); done.
Qed.

Lemma fold_max_absorb versions :
  forall a b, fold_left Z.max versions (Z.max a b) = Z.max a (fold_left Z.max versions b).
Proof.
  induction versions as [|v rest IH]; intros a b; cbn [fold_left]; [reflexivity|].
  by rewrite <- Z.max_assoc, IH.
Qed.

Lemma fold_max_from_zero_any versions :
  fold_left Z.max versions 0 = Z.max 0 (max_or 0 versions).
Proof.
  destruct versions as [|v rest]; cbn [fold_left max_or]; [reflexivity|].
  apply fold_max_absorb.
Qed.

(** C2, as amended.  On a store whose versions for the key are integers
    below 2^53 - 1, the range in which the sums of the code are exact, the
    version that [addOverride] assigns is the maximum of 0 and the versions
    stored for the key (active or not) plus one.  It exceeds every version
    stored for the key, so versions grow strictly within a key and none is
    used twice, and it is again in the range.  Creating, deleting and
    creating again on one key gives a version and then its successor: 1 and
    then 2 on a store that reads as empty. *)
Theorem create_version_is_max_plus_one
    (f : file_state) (la lo da : string) (values values2 : jsval) (now now2 : string) :
  let all := readOverrides f in
  let first := addOverride f la lo da values now in
  let deleted := removeOverride (fst first) la lo da in
  let second := addOverride (fst deleted) la lo da values2 now2 in
  (forall o, In o all -> same_key o la lo da = true -> version o + 1 < 2 ^ 53) ->
  version (snd first) = Z.max 0 (spec_max_version la lo da all) + 1
  /\ (forall o, In o all -> same_key o la lo da = true ->
        version o < version (snd first))
  /\ 1 <= version (snd first) < 2 ^ 53
  /\ snd deleted = Some (deactivate (snd first))
  /\ getLatestOverride (fst deleted) la lo da = None
  /\ version (snd second) = version (snd first) + 1
  /\ (all = [] -> version (snd first) = 1 /\ version (snd second) = 2).
Proof.
  cbn zeta. intros Hrange.
  rewrite (addOverride_unfold f). cbn [fst snd version].
  set (v := fst (supersede la lo da 0 (readOverrides f))).
  set (r := Build_OverrideRecord la lo da values now _ (v + 1) true).
  assert (same_key r la lo da = true) as Hkr by (by apply same_key_spec).
  assert (candidates la lo da (map (superseded la lo da) (readOverrides f) ++ [r]) = [r])
    as Hcand.
  { rewrite candidates_app, candidates_superseded. unfold candidates.
    cbn [List.filter app]. by rewrite Hkr. }
  rewrite removeOverride_unfold. cbn [readOverrides]. rewrite Hcand. cbn [last fst snd].
  rewrite addOverride_unfold. cbn [fst snd version readOverrides].
  assert (fst (supersede la lo da 0
                 (map (switched_off la lo da)
                    (map (superseded la lo da) (readOverrides f) ++ [r]))) = v + 1)
    as Hnext.
  { rewrite supersede_fst_map
      by (intros; first [apply same_key_switched_off | apply version_switched_off]).
    rewrite supersede_fst_app.
    rewrite supersede_fst_map
      by (intros; first [apply same_key_deactivate_or | apply version_superseded]).
    fold v. cbn [supersede]. rewrite Hkr. cbn [fst]. subst r. cbn [version]. lia. }
  rewrite Hnext.
  pose proof (supersede_fst_ge la lo da 0 (readOverrides f)) as Hge. fold v in Hge.
  assert (v + 1 < 2 ^ 53) as Hlt.
  { destruct (supersede_fst_attained la lo da 0 (readOverrides f)) as [Hzero | Hsome].
    - fold v in Hzero. rewrite Hzero. reflexivity.
    - destruct Hsome as (o & Hin & Hk & Hv). fold v in Hv. rewrite Hv.
      by apply Hrange. }
  split.
  { f_equal. unfold v, spec_max_version.
    rewrite supersede_fst_fold. apply fold_max_from_zero_any. }
  split.
  { intros o Hin Hk.
    pose proof (supersede_fst_bound la lo da 0 _ o Hin Hk). fold v in H. lia. }
  split; [lia|]. split; [reflexivity|].
  split.
  { unfold getLatestOverride. cbn [readOverrides].
    by rewrite candidates_switched_off. }
  split; [reflexivity|].
  intros Hall. unfold v. rewrite Hall. cbn. done.
Qed.

(** C2, as stated, fails: on a store whose only record of the key has
    version -3 the rule "maximum of the key's versions, 0 when there is
    none, plus one" gives -2, and [addOverride] assigns 1, since its running
    maximum starts at 0.  And at a stored version of 2^53 the number
    addition of the code returns 2^53 again, the same version. *)
Lemma create_version_not_max_of_stored :
  version (snd (addOverride (Holds edited_log) "17.385" "78.4867" "2024-01-01"
                  (JObj []) "2024-01-01T08:00:00.000Z")) = 1
  /\ spec_max_version "17.385" "78.4867" "2024-01-01" edited_log + 1 = -2
  /\ (Num.of_int false (2 ^ 53) + 1)%float = Num.of_int false (2 ^ 53).
Proof. repeat split; reflexivity. Qed.


Lemma create_version_is_max_plus_one_witness :
  version (snd (addOverride (Holds sample_log) "17.385" "78.4867" "2024-01-01"
                  (JObj []) "2024-01-01T08:00:00.000Z"))
  = Z.max 0 (spec_max_version "17.385" "78.4867" "2024-01-01" sample_log) + 1.
Proof.
  apply (create_version_is_max_plus_one (Holds sample_log) "17.385" "78.4867"
           "2024-01-01" (JObj []) (JObj []) "2024-01-01T08:00:00.000Z" "").
  intros o Hin _. cbn in Hin.
  destruct Hin as [<- | [<- | []]]; reflexivity.
Defined.

(** The end-to-end example of the specification: a creation on a fresh
    store is found as version 1, active, with its values; after a deletion
    of the key nothing is found. *)
Example create_get_delete_get :
  let key_lat := "17.385" in
  let key_lon := "78.4867" in
  let key_date := "2024-01-01" in
  let created :=
    addOverride Absent key_lat key_lon key_date (JObj [("tempC", JNum 28)])
      "2024-01-01T06:00:00.000Z" in
  let deleted := removeOverride (fst created) key_lat key_lon key_date in
  getLatestOverride (fst created) key_lat key_lon key_date = Some (snd created)
  /\ version (snd created) = 1 /\ active (snd created) = true
  /\ assoc "tempC" [("tempC", JNum 28)] = Some (JNum 28)
  /\ snd deleted = Some (deactivate (snd created))
  /\ getLatestOverride (fst deleted) key_lat key_lon key_date = None.
Proof. repeat split. Qed.

(** Several active records for one key: the highest version is returned. *)
Example getLatestOverride_heals_multi_active :
  let r v a :=
    {| lat := "1"; lon := "2"; date := "2024-01-01"; newValues := JObj [];
       updatedAt := ""; updatedBy := "anonymous"; version := v; active := a |} in
  getLatestOverride (Holds [r 2 true; r 5 true; r 7 false; r 3 true])
    "1" "2" "2024-01-01" = Some (r 5 true).
Proof. reflexivity. Qed.

(** *** Unreadable files *)

(** C9. A backing file that is missing, empty or not valid JSON reads as
    the empty log, and every operation of the store then answers as it does
    on a file holding the empty array: nothing to return for
    [getLatestOverride] and [removeOverride] (which writes nothing), and
    the same file and record, of version 1, for [addOverride]. *)
Theorem unreadable_file_is_empty_store
    (f : file_state) (la lo da : string) (values : jsval) (now : string) :
  f = Absent \/ f = Empty \/ (exists raw, f = InvalidJSON raw) ->
  readOverrides f = readOverrides (Holds [])
  /\ getLatestOverride f la lo da = getLatestOverride (Holds []) la lo da
  /\ getLatestOverride f la lo da = None
  /\ addOverride f la lo da values now = addOverride (Holds []) la lo da values now
  /\ version (snd (addOverride f la lo da values now)) = 1
  /\ readOverrides (fst (addOverride f la lo da values now))
     = [snd (addOverride f la lo da values now)]
  /\ snd (removeOverride f la lo da) = snd (removeOverride (Holds []) la lo da)
  /\ removeOverride f la lo da = (f, None).
Proof.
  intros [-> | [-> | [raw ->]]]; repeat split.
Qed.

Lemma unreadable_file_is_empty_store_witness :
  addOverride (InvalidJSON "[{") "17.385" "78.4867" "2024-01-01" (JObj []) "t"
  = addOverride (Holds []) "17.385" "78.4867" "2024-01-01" (JObj []) "t".
Proof.
  apply (unreadable_file_is_empty_store (InvalidJSON "[{") "17.385" "78.4867"
           "2024-01-01" (JObj []) "t").
  right. right. by exists "[{".
Defined.

(** *** The HTTP boundary *)

Lemma candidates_after_add f la lo da values now :
  candidates la lo da (readOverrides (fst (addOverride f la lo da values now)))
  = [snd (addOverride f la lo da values now)].
Proof.
  rewrite addOverride_unfold. cbn [fst snd readOverrides].
  rewrite candidates_app, candidates_superseded. unfold candidates.
  cbn [List.filter app].
  by rewrite (proj2 (same_key_spec _ la lo da)).
Qed.

Lemma missing_Some s : s <> "" -> missing (Some s) = false.
Proof. intros Hs. unfold missing. by apply bool_decide_eq_false. Qed.

Section Boundary.

Variable Number_toString : float -> string.

#[local] Abbreviation String := (String_ Number_toString).
#[local] Abbreviation handle_post := (Store.handle_post Number_toString).
#[local] Abbreviation handle_delete := (Store.handle_delete Number_toString).

(** The two ways [POST /override] can end: the body is an object whose
    four fields are truthy and whose key fields [String(...)] converts, and
    the record is appended; or nothing is written and the answer is 400. *)
Lemma handle_post_cases f parsed now :
  (exists fields la lo da values,
      parsed = Some (JObj fields)
      /\ assoc "lat" fields = Some la /\ assoc "lon" fields = Some lo
      /\ assoc "date" fields = Some da /\ assoc "values" fields = Some values
      /\ truthy la = true /\ truthy lo = true /\ truthy da = true
      /\ truthy values = true
      /\ String_throws la = false /\ String_throws lo = false
      /\ String_throws da = false
      /\ handle_post f parsed now
         = (fst (addOverride f (String la) (String lo) (String da) values now),
            {| status := 201;
               body := RecordJSON
                         (snd (addOverride f (String la) (String lo) (String da)
                                 values now)) |}))
  \/ (fst (handle_post f parsed now) = f
      /\ status (snd (handle_post f parsed now)) = 400
      /\ ~ (exists fields la lo da values,
              parsed = Some (JObj fields)
              /\ assoc "lat" fields = Some la /\ assoc "lon" fields = Some lo
              /\ assoc "date" fields = Some da /\ assoc "values" fields = Some values
              /\ truthy la = true /\ truthy lo = true /\ truthy da = true
              /\ truthy values = true
              /\ String_throws la = false /\ String_throws lo = false
              /\ String_throws da = false)).
Proof.
  destruct parsed as [data|]; [|right; split; [done|]; split; [done|]].
  2: { intros (? & ? & ? & ? & ? & ? & _); discriminate. }
  destruct data as [| | | | | |fields];
    try (right; split; [done|]; split; [done|];
         intros (? & ? & ? & ? & ? & ? & _); discriminate).
  unfold Store.handle_post. cbn [field].
  destruct (assoc "lat" fields) as [la|] eqn:Hla; cbn [from_option id truthy negb orb].
  2: { right. split; [done|]. split; [done|].
       intros (? & ? & ? & ? & ? & [= <-] & ? & _). congruence. }
  destruct (truthy la) eqn:Tla; cbn [negb orb].
  2: { right. split; [done|]. split; [done|].
       intros (? & ? & ? & ? & ? & [= <-] & ? & ? & ? & ? & ? & _). congruence. }
  destruct (assoc "lon" fields) as [lo|] eqn:Hlo; cbn [from_option id truthy negb orb].
  2: { right. split; [done|]. split; [done|].
       intros (? & ? & ? & ? & ? & [= <-] & ? & ? & _). congruence. }
  destruct (truthy lo) eqn:Tlo; cbn [negb orb].
  2: { right. split; [done|]. split; [done|].
       intros (? & ? & ? & ? & ? & [= <-] & ? & ? & ? & ? & ? & ? & _). congruence. }
  destruct (assoc "date" fields) as [da|] eqn:Hda; cbn [from_option id truthy negb orb].
  2: { right. split; [done|]. split; [done|].
       intros (? & ? & ? & ? & ? & [= <-] & ? & ? & ? & _). congruence. }
  destruct (truthy da) eqn:Tda; cbn [negb orb].
  2: { right. split; [done|]. split; [done|].
       intros (? & ? & ? & ? & ? & [= <-] & ? & ? & ? & ? & ? & ? & ? & _). congruence. }
  destruct (assoc "values" fields) as [values|] eqn:Hvalues;
    cbn [from_option id truthy negb orb].
  2: { right. split; [done|]. split; [done|].
       intros (? & ? & ? & ? & ? & [= <-] & ? & ? & ? & ? & _). congruence. }
  destruct (truthy values) eqn:Tvalues; cbn [negb orb].
  2: { right. split; [done|]. split; [done|].
       intros (? & ? & ? & ? & ? & [= <-] & ? & ? & ? & ? & ? & ? & ? & ? & _).
       congruence. }
  destruct (String_throws la) eqn:Sla; cbn [orb].
  2: destruct (String_throws lo) eqn:Slo; cbn [orb].
  3: destruct (String_throws da) eqn:Sda; cbn [orb].
  1-3: right; (split; [done|]); (split; [done|]);
       intros (? & ? & ? & ? & ? & [= <-] & ? & ? & ? & ? & ? & ? & ? & ? & ? & ? & ?);
       congruence.
  left. exists fields, la, lo, da, values.
  repeat (split; [done|]).
  by destruct (addOverride f (String la) (String lo) (String da) values now).
Qed.

(** The same for [DELETE /override]. *)
Lemma handle_delete_cases f parsed :
  (exists fields la lo da,
      parsed = Some (JObj fields)
      /\ assoc "lat" fields = Some la /\ assoc "lon" fields = Some lo
      /\ assoc "date" fields = Some da
      /\ truthy la = true /\ truthy lo = true /\ truthy da = true
      /\ String_throws la = false /\ String_throws lo = false
      /\ String_throws da = false
      /\ handle_delete f parsed
         = (fst (removeOverride f (String la) (String lo) (String da)),
            {| status := 200;
               body := Removed
                         (bool_decide
                            (is_Some (snd (removeOverride f (String la) (String lo)
                                             (String da))))) |}))
  \/ (fst (handle_delete f parsed) = f
      /\ status (snd (handle_delete f parsed)) = 400
      /\ ~ (exists fields la lo da,
              parsed = Some (JObj fields)
              /\ assoc "lat" fields = Some la /\ assoc "lon" fields = Some lo
              /\ assoc "date" fields = Some da
              /\ truthy la = true /\ truthy lo = true /\ truthy da = true
              /\ String_throws la = false /\ String_throws lo = false
              /\ String_throws da = false)).
Proof.
  destruct parsed as [data|]; [|right; split; [done|]; split; [done|]].
  2: { intros (? & ? & ? & ? & ? & _); discriminate. }
  destruct data as [| | | | | |fields];
    try (right; split; [done|]; split; [done|];
         intros (? & ? & ? & ? & ? & _); discriminate).
  unfold Store.handle_delete. cbn [field].
  destruct (assoc "lat" fields) as [la|] eqn:Hla; cbn [from_option id truthy negb orb].
  2: { right. split; [done|]. split; [done|].
       intros (? & ? & ? & ? & [= <-] & ? & _). congruence. }
  destruct (truthy la) eqn:Tla; cbn [negb orb].
  2: { right. split; [done|]. split; [done|].
       intros (? & ? & ? & ? & [= <-] & ? & ? & ? & ? & _). congruence. }
  destruct (assoc "lon" fields) as [lo|] eqn:Hlo; cbn [from_option id truthy negb orb].
  2: { right. split; [done|]. split; [done|].
       intros (? & ? & ? & ? & [= <-] & ? & ? & _). congruence. }
  destruct (truthy lo) eqn:Tlo; cbn [negb orb].
  2: { right. split; [done|]. split; [done|].
       intros (? & ? & ? & ? & [= <-] & ? & ? & ? & ? & ? & _). congruence. }
  destruct (assoc "date" fields) as [da|] eqn:Hda; cbn [from_option id truthy negb orb].
  2: { right. split; [done|]. split; [done|].
       intros (? & ? & ? & ? & [= <-] & ? & ? & ? & _). congruence. }
  destruct (truthy da) eqn:Tda; cbn [negb orb].
  2: { right. split; [done|]. split; [done|].
       intros (? & ? & ? & ? & [= <-] & ? & ? & ? & ? & ? & ? & _). congruence. }
  destruct (String_throws la) eqn:Sla; cbn [orb].
  2: destruct (String_throws lo) eqn:Slo; cbn [orb].
  3: destruct (String_throws da) eqn:Sda; cbn [orb].
  1-3: right; (split; [done|]); (split; [done|]);
       intros (? & ? & ? & ? & [= <-] & ? & ? & ? & ? & ? & ? & ? & ? & ?);
       congruence.
  left. exists fields, la, lo, da. repeat (split; [done|]).
  by destruct (removeOverride f (String la) (String lo) (String da)).
Qed.


End Boundary.

Example post_rejects_latitude_zero :
  handle_post integral_toString Absent (Some equator_body) "t"
  = (Absent, {| status := 400;
                body := ErrorMessage "lat, lon, date and values are required" |}).
Proof. reflexivity. Qed.


End StoreFacts.

(** * Properties of the browser script *)

Module ClientFacts.
Import Js Client Samples.

(** *** The hourly reduction *)

Lemma fold_add_entry hourly :
  forall acc,
    let sums := fold_left add_entry hourly acc in
    sumTemp sums = fold_left PrimFloat.add (map h_tempC hourly) (sumTemp acc)
    /\ sumHumidity sums
       = fold_left PrimFloat.add (map h_humidity hourly) (sumHumidity acc)
    /\ sumWind sums
       = fold_left PrimFloat.add (map h_windspeedKmph hourly) (sumWind acc)
    /\ sumPrecip sums
       = fold_left PrimFloat.add (map h_precipMM hourly) (sumPrecip acc).
Proof.
  induction hourly as [|entry rest IH]; intros acc; cbn [fold_left map].
  - done.
  - apply (IH (add_entry acc entry)).
Qed.

(** Each running sum of the [forEach] loop is the sum of its column. *)
Lemma sum_entries_columns hourly :
  sumTemp (sum_entries hourly) = fsum (map h_tempC hourly)
  /\ sumHumidity (sum_entries hourly) = fsum (map h_humidity hourly)
  /\ sumWind (sum_entries hourly) = fsum (map h_windspeedKmph hourly)
  /\ sumPrecip (sum_entries hourly) = fsum (map h_precipMM hourly).
Proof. apply fold_add_entry. Qed.

Lemma midpoint_in_range {A} (l : list A) :
  l <> [] -> is_Some (l !! (length l / 2)%nat).
Proof.
  intros Hl. apply lookup_lt_is_Some.
  destruct l as [|x l]; [done|]. cbn [length].
  apply Nat.div_lt; lia.
Qed.

Lemma includes_app l1 l2 code :
  includes (l1 ++ l2) code = includes l1 code || includes l2 code.
Proof. apply existsb_app. Qed.

Lemma weatherCodeToIcon_default code :
  includes mapped_codes code = false -> weatherCodeToIcon code = "🌥️".
Proof.
  unfold mapped_codes. rewrite !includes_app, !orb_false_iff.
  intros (H1 & H2 & H3 & H4 & H5). unfold weatherCodeToIcon.
  rewrite H2, H3, H4, H5.
  cbn [includes existsb] in H1. rewrite orb_false_r in H1. by rewrite H1.
Qed.

Lemma weatherCodeToIcon_icons code : In (weatherCodeToIcon code) icons.
Proof.
  unfold weatherCodeToIcon, icons.
  repeat match goal with
         | |- context [if ?b then _ else _] => destruct b
         end; cbn; tauto.
Qed.

Lemma reduce_hourly_total trim hourly :
  hourly <> [] -> is_Some (hourly !! (length hourly / 2)%nat)
  /\ exists w, reduce_hourly trim hourly = inr w.
Proof.
  intros Hne. pose proof (midpoint_in_range hourly Hne) as [c Hc].
  split; [by exists c|]. unfold reduce_hourly. rewrite Hc. eauto.
Qed.

(** C7, as amended.  For a day with at least one hourly entry the snapshot
    has: the mean temperature and the mean wind speed, each rounded to one
    decimal place; the mean humidity rounded to the nearest integer; the
    total precipitation rounded to one decimal place; the trimmed
    description and the icon of the entry at index [floor (count / 2)].
    The icon is one of six, and a code outside the table gets the
    other-cloudy one. *)
Theorem reduce_hourly_rounded_means
    (trim : string -> string) (hourly : list HourlyEntry) :
  hourly <> [] ->
  exists w condition,
    reduce_hourly trim hourly = inr w
    /\ tempC w = Num.parseFloat_toFixed1 (mean (map h_tempC hourly))
    /\ humidityPct w = Num.Math_round (mean (map h_humidity hourly))
    /\ windKph w = Num.parseFloat_toFixed1 (mean (map h_windspeedKmph hourly))
    /\ precipMm w = Num.parseFloat_toFixed1 (fsum (map h_precipMM hourly))
    /\ hourly !! (length hourly / 2)%nat = Some condition
    /\ conditionText w = match weatherDesc condition with
                         | Some value => trim value
                         | None => ""
                         end
    /\ conditionIcon w = weatherCodeToIcon (weatherCode condition)
    /\ In (conditionIcon w) icons
    /\ (forall code, includes mapped_codes code = false ->
          weatherCodeToIcon code = "🌥️").
Proof.
  intros Hne. destruct (midpoint_in_range hourly Hne) as [condition Hc].
  destruct (sum_entries_columns hourly) as (Ht & Hh & Hw & Hp).
  eexists _, condition. unfold reduce_hourly. rewrite Hc.
  split; [reflexivity|]. cbn [tempC humidityPct windKph precipMm conditionText
                               conditionIcon].
  rewrite Ht, Hh, Hw, Hp. unfold mean. rewrite !length_map.
  repeat split.
  - apply weatherCodeToIcon_icons.
  - apply weatherCodeToIcon_default.
Qed.

Lemma reduce_hourly_rounded_means_witness :
  exists w, reduce_hourly trim_ascii sample_hourly = inr w
    /\ tempC w = Num.parseFloat_toFixed1 (mean (map h_tempC sample_hourly))
    /\ conditionText w = "Sunny".
Proof.
  destruct (reduce_hourly_rounded_means trim_ascii sample_hourly)
    as (w & c & Hw & Ht & _ & _ & _ & Hc & Htext & _); [discriminate|].
  exists w. split; [exact Hw|]. split; [exact Ht|].
  injection Hc as <-. exact Htext.
Defined.

(** C7, as stated, fails: for temperatures 1, 1, 2 the snapshot holds 1.3
    and not the mean 4/3, for humidities 40, 41, 41 it holds 41 and not
    the mean 122/3, for wind speeds 10, 10, 11 it holds 10.3 and not 31/3,
    and for the precipitation 0.125 it holds 0.1 and not the sum. *)
Lemma reduce_hourly_not_plain_mean :
  exists w, reduce_hourly trim_ascii sample_hourly = inr w
    /\ tempC w = Num.of_tenths false 13
    /\ tempC w <> mean (map h_tempC sample_hourly)
    /\ humidityPct w = 41%float
    /\ humidityPct w <> mean (map h_humidity sample_hourly)
    /\ windKph w <> mean (map h_windspeedKmph sample_hourly)
    /\ precipMm w <> fsum (map h_precipMM sample_hourly).
Proof.
  eexists. split; [reflexivity|].
  repeat split; try (vm_compute; reflexivity);
    intros H; apply (f_equal Prim2SF) in H; vm_compute in H; discriminate.
Qed.

(** *** The merge *)

(** Spreading an object literal copies the property that a read of the
    object would find. *)
Lemma lookup_fields (fields : list (string * jsval)) (k : string) :
  (list_to_map fields : gmap string jsval) !! k = assoc k fields.
Proof.
  induction fields as [|[k' v] rest IH]; cbn [list_to_map foldr assoc].
  - apply lookup_empty.
  - cbn [fst snd]. rewrite lookup_insert. rewrite IH.
    destruct (decide (k' = k)) as [->|Hne].
    + by rewrite bool_decide_eq_true_2.
    + by rewrite bool_decide_eq_false_2.
Qed.

Lemma lookup_overwrite (over base : gmap string jsval) (k : string) :
  (over ∪ base) !! k = match over !! k with
                       | Some v => Some v
                       | None => base !! k
                       end.
Proof. rewrite lookup_union. destruct (over !! k), (base !! k); done. Qed.

(** C5. For an override whose [newValues] is an object (or any other
    truthy value), the merged snapshot has, at every field, the value of
    [newValues] when it has that field and the baseline's value otherwise,
    and the provenance is ["Override (v<version>)"].  Without an override
    the snapshot is the baseline and the provenance ["API"], which is what
    the script gets from [GET /override] when the key has no active record.
    An override with [newValues = {}] gives the baseline unchanged under
    the override provenance. *)
Theorem combine_overwrites_present_fields
    (w : Weather) (o : Store.OverrideRecord) (fields : list (string * jsval))
    (file : Store.file_state) (la lo da : string) :
  let provenance := "Override (v" +:+ pretty (Store.version o) +:+ ")" in
  (truthy (Store.newValues o) = true ->
     snd (combine w (Some o)) = provenance
     /\ forall k, fst (combine w (Some o)) !! k
                  = match spread (Store.newValues o) !! k with
                    | Some v => Some v
                    | None => weather_object w !! k
                    end)
  /\ (Store.newValues o = JObj fields ->
      snd (combine w (Some o)) = provenance
      /\ forall k, fst (combine w (Some o)) !! k
                   = match assoc k fields with
                     | Some v => Some v
                     | None => weather_object w !! k
                     end)
  /\ combine w None = (weather_object w, "API")
  /\ (la <> "" -> lo <> "" -> da <> "" ->
      Store.getLatestOverride file la lo da = None ->
      fetchOverride (Store.handle_get file (Some la) (Some lo) (Some da)) = inr None)
  /\ (Store.newValues o = JObj [] ->
      combine w (Some o) = (weather_object w, provenance)).
Proof.
  cbn zeta. unfold combine, merge.
  change (spread (weather_value w)) with (weather_object w).
  split; [intros ->; split; [done|]; intros k; apply lookup_overwrite|].
  split.
  { intros ->. cbn [truthy spread fst snd]. split; [done|].
    intros k. by rewrite lookup_overwrite, lookup_fields. }
  split; [done|].
  split.
  { intros Hla Hlo Hda Hnone. unfold Store.handle_get.
    rewrite !StoreFacts.missing_Some by done. cbn [orb from_option id].
    by rewrite Hnone. }
  intros ->. cbn [truthy spread list_to_map foldr].
  by rewrite (left_id_L ∅ (∪)).
Qed.

Lemma combine_overwrites_present_fields_witness :
  snd (combine sample_weather (Some sample_override)) = "Override (v3)"
  /\ fst (combine sample_weather (Some sample_override)) !! "tempC" = Some (JNum 30)
  /\ fst (combine sample_weather (Some sample_override)) !! "humidityPct"
     = Some (JNum 40).
Proof.
  destruct (combine_overwrites_present_fields sample_weather sample_override
              [("tempC", JNum 30)] Store.Absent "17.385" "78.4867" "2024-01-01")
    as (_ & Hobj & _).
  destruct (Hobj eq_refl) as [Hsrc Hfield].
  split; [exact Hsrc|]. split; [exact (Hfield "tempC") | exact (Hfield "humidityPct")].
Defined.

(** [loadWeather] merges what [fetchWeather] returns with the active
    override that the store holds for the key, when the three query
    parameters are not empty. *)
Lemma loadWeather_merges Number_toString trim loc dateString now upstream file st
    snapshot :
  let la := String_ Number_toString (loc_lat loc) in
  let lo := String_ Number_toString (loc_lon loc) in
  fst (fetchWeather Number_toString trim loc dateString now upstream st)
  = inr snapshot ->
  la <> "" -> lo <> "" -> dateString <> "" ->
  fst (loadWeather Number_toString trim loc dateString now upstream file st)
  = inr (merge snapshot
           (match Store.getLatestOverride file la lo dateString with
            | Some o => if truthy (Store.newValues o) then Some o else None
            | None => None
            end)).
Proof.
  cbn zeta. intros Hw Hla Hlo Hda. unfold loadWeather.
  destruct (fetchWeather _ _ _ _ _ _ _) as [res st']. cbn [fst] in Hw. subst res.
  unfold Store.handle_get. rewrite !StoreFacts.missing_Some by done.
  cbn [orb from_option id].
  by destruct (Store.getLatestOverride file _ _ _).
Qed.

(** *** The forecast cache *)

(** Writing a value as JSON and reading it back a second time changes
    nothing more. *)
Lemma JSON_roundtrip_number_idempotent x :
  JSON_roundtrip (JSON_roundtrip (JNum x)) = JSON_roundtrip (JNum x).
Proof.
  cbn [JSON_roundtrip].
  destruct (is_finite x) eqn:Hfin; [|done].
  destruct (PrimFloat.eqb x 0) eqn:Hzero; cbn [JSON_roundtrip].
  - reflexivity.
  - by rewrite Hfin, Hzero.
Qed.

Lemma JSON_roundtrip_idempotent :
  forall v, JSON_roundtrip (JSON_roundtrip v) = JSON_roundtrip v.
Proof.
  fix IH 1. intros [| |b|x|t|items|fields]; try reflexivity.
  - apply JSON_roundtrip_number_idempotent.
  - cbn [JSON_roundtrip]. f_equal. rewrite map_map.
    induction items as [|i items IHitems]; [reflexivity|].
    cbn [map]. f_equal; [|exact IHitems].
    pose proof (IH i) as IHi.
    destruct i as [| |b|x|t|more|more]; try reflexivity; try exact IHi.
    cbn [JSON_roundtrip] in *.
    destruct (is_finite x); [|reflexivity].
    by destruct (PrimFloat.eqb x 0).
  - cbn [JSON_roundtrip]. f_equal.
    induction fields as [|[k i] fields IHfields]; [reflexivity|].
    cbn [flat_map fst snd]. rewrite flat_map_app, IHfields. f_equal.
    pose proof (IH i) as IHi.
    destruct i as [| |b|x|t|more|more]; try reflexivity.
    + cbn [JSON_roundtrip] in *.
      destruct (is_finite x); [|reflexivity].
      destruct (PrimFloat.eqb x 0); cbn [flat_map fst snd app] in *;
        by rewrite ?IHi.
    + cbn [JSON_roundtrip flat_map fst snd app] in *. by rewrite IHi.
    + cbn [JSON_roundtrip flat_map fst snd app] in *. by rewrite IHi.
Qed.

Lemma parsed_entry_idempotent entry :
  parsed_entry (parsed_entry entry) = parsed_entry entry.
Proof.
  unfold parsed_entry. cbn [data timestamp]. by rewrite JSON_roundtrip_idempotent.
Qed.

(** An entry read from the item is read back unchanged after the item has
    been written again. *)
Lemma read_cache_parsed item k :
  parsed_entry <$> (read_cache item !! k) = read_cache item !! k.
Proof.
  destruct item as [|raw|cache]; cbn [read_cache]; [done | done |].
  rewrite lookup_fmap. destruct (cache !! k) as [entry|]; [|done].
  cbn. by rewrite parsed_entry_idempotent.
Qed.

(** The parts of a cache key can be read off it when the two coordinates
    are printed without a comma. *)
Lemma append_comma_inj s1 s2 r1 r2 :
  comma_free s1 = true -> comma_free s2 = true ->
  s1 +:+ "," +:+ r1 = s2 +:+ "," +:+ r2 -> s1 = s2 /\ r1 = r2.
Proof.
  revert s2. induction s1 as [|c s1 IH]; intros [|c2 s2] H1 H2 Heq;
    cbn in H1, H2; cbv [String.append] in Heq.
  - by injection Heq as ->.
  - injection Heq as <- _. by rewrite Ascii.eqb_refl in H2.
  - injection Heq as -> _. by rewrite Ascii.eqb_refl in H1.
  - injection Heq as -> Heq.
    apply andb_true_iff in H1 as [_ H1]. apply andb_true_iff in H2 as [_ H2].
    destruct (IH s2 H1 H2 Heq) as [-> ->]. done.
Qed.

Section Cache.

Variable Number_toString : float -> string.
Variable trim : string -> string.

#[local] Abbreviation String := (String_ Number_toString).
#[local] Abbreviation cacheKey := (cacheKey Number_toString).
#[local] Abbreviation url := (url Number_toString).
#[local] Abbreviation refetch := (refetch Number_toString trim).
#[local] Abbreviation fetchWeather := (fetchWeather Number_toString trim).

Lemma cacheKey_inj loc loc' dateString dateString' :
  comma_free (String (loc_lat loc)) = true ->
  comma_free (String (loc_lon loc)) = true ->
  comma_free (String (loc_lat loc')) = true ->
  comma_free (String (loc_lon loc')) = true ->
  cacheKey loc dateString = cacheKey loc' dateString' ->
  (String (loc_lat loc), String (loc_lon loc), dateString)
  = (String (loc_lat loc'), String (loc_lon loc'), dateString').
Proof.
  intros Hla Hlo Hla' Hlo' Hkey. unfold Client.cacheKey in Hkey.
  apply append_comma_inj in Hkey as [-> Hkey]; [|done..].
  apply append_comma_inj in Hkey as [-> ->]; done.
Qed.

Lemma fresh_data_hit cache key now entry :
  cache !! key = Some entry -> now - timestamp entry < window ->
  fresh_data cache key now = Some (data entry).
Proof.
  unfold fresh_data, window. intros -> Hlt.
  destruct (Z.ltb_spec (now - timestamp entry) (15 * 60 * 1000)); [done | lia].
Qed.

Lemma fresh_data_miss cache key now :
  absent_or_stale cache key now -> fresh_data cache key now = None.
Proof.
  unfold fresh_data, absent_or_stale, window.
  destruct (cache !! key) as [entry|]; [|done]. intros Hge.
  destruct (Z.ltb_spec (now - timestamp entry) (15 * 60 * 1000)); [lia | done].
Qed.

(** Every path through the request appends exactly one URL to the
    requests made. *)
Lemma refetch_requested loc dateString now upstream st cache :
  requested (snd (refetch loc dateString now upstream st cache))
  = requested st ++ [url loc].
Proof.
  unfold refetch.
  destruct (upstream (url loc)) as [|[] [fc|]]; try done.
  destruct (pick_day dateString _) as [d|]; [|done].
  destruct (bool_decide _); [done|].
  destruct (reduce_hourly trim _); done.
Qed.

(** The only write to the cache item is on the path that returns a
    snapshot. *)
Lemma refetch_cache loc dateString now upstream st cache :
  match fst (refetch loc dateString now upstream st cache) with
  | inl _ =>
      weatherCache (snd (refetch loc dateString now upstream st cache))
      = weatherCache st
  | inr w =>
      weatherCache (snd (refetch loc dateString now upstream st cache))
      = CacheText (<[cacheKey loc dateString := {| data := w; timestamp := now |}]>
                     cache)
  end.
Proof.
  unfold refetch.
  destruct (upstream (url loc)) as [|[] [fc|]]; try done.
  destruct (pick_day dateString _) as [d|]; [|done].
  destruct (bool_decide _); [done|].
  destruct (reduce_hourly trim _); done.
Qed.

Lemma refetch_success loc dateString now upstream st cache fc d :
  upstream (url loc) = Responded true (Some fc) ->
  pick_day dateString (default [] (weather fc)) = Some d ->
  default [] (hourly d) <> [] ->
  exists w, reduce_hourly trim (default [] (hourly d)) = inr w
    /\ fst (refetch loc dateString now upstream st cache) = inr (weather_value w).
Proof.
  intros Hup Hday Hne. unfold refetch. rewrite Hup, Hday.
  destruct (reduce_hourly_total trim _ Hne) as [_ [w Hw]].
  exists w. split; [done|].
  rewrite bool_decide_eq_false_2, Hw; [done|].
  by intros ?%nil_length_inv.
Qed.

(** C6. For a location whose coordinates print, so that it has a key:
    [fetchWeather] returns the snapshot held in the cache item and
    requests nothing when the key has an entry less than 15 minutes old.
    When there is no entry or it is 15 minutes old or older it sends one
    request, and on a successful fetch it returns the snapshot built from
    the forecast and stores it under the key with the current time.  Hence,
    after such a fetch at [now], a second call for the key at [later]
    returns the stored snapshot, as read back from its JSON text, with no
    further request when [later - now] is under 15 minutes (one request in
    all), and sends a second request when it is not (two in all).  The entry
    serves its own key only: a call for another location or date, whose
    coordinates print without a comma, is not answered from it. *)
Theorem cache_get_fetches_once_per_window
    (loc loc' : Location) (dateString dateString' : string) (now later : Z)
    (upstream upstream' : string -> fetch_result) (st : Browser) :
  printable loc = true ->
  let key := cacheKey loc dateString in
  let cache := read_cache (weatherCache st) in
  let got := fetchWeather loc dateString now upstream st in
  (forall entry, cache !! key = Some entry -> now - timestamp entry < window ->
     got = (inr (data entry), st))
  /\ (absent_or_stale cache key now ->
      requested (snd got) = requested st ++ [url loc]
      /\ (forall fc d,
            upstream (url loc) = Responded true (Some fc) ->
            pick_day dateString (default [] (weather fc)) = Some d ->
            default [] (hourly d) <> [] ->
            exists w, reduce_hourly trim (default [] (hourly d)) = inr w
                      /\ fst got = inr (weather_value w))
      /\ forall snapshot, fst got = inr snapshot ->
           let again := fetchWeather loc dateString later upstream' (snd got) in
           let other := fetchWeather loc' dateString' later upstream' (snd got) in
           weatherCache (snd got)
           = CacheText (<[key := {| data := snapshot; timestamp := now |}]> cache)
           /\ (later - now < window ->
               again = (inr (JSON_roundtrip snapshot), snd got)
               /\ requested (snd again) = requested st ++ [url loc])
           /\ (window <= later - now ->
               requested (snd again) = requested st ++ [url loc; url loc])
           /\ (printable loc' = true ->
               comma_free (String (loc_lat loc)) = true ->
               comma_free (String (loc_lon loc)) = true ->
               comma_free (String (loc_lat loc')) = true ->
               comma_free (String (loc_lon loc')) = true ->
               (String (loc_lat loc'), String (loc_lon loc'), dateString')
               <> (String (loc_lat loc), String (loc_lon loc), dateString) ->
               absent_or_stale cache (cacheKey loc' dateString') later ->
               requested (snd other) = requested st ++ [url loc; url loc'])).
Proof.
  intros _. cbn zeta. split.
  - intros entry Hentry Hfresh. unfold Client.fetchWeather.
    by rewrite (fresh_data_hit _ _ _ _ Hentry Hfresh).
  - intros Hmiss.
    assert (fetchWeather loc dateString now upstream st
            = refetch loc dateString now upstream st (read_cache (weatherCache st)))
      as -> by (unfold Client.fetchWeather; by rewrite (fresh_data_miss _ _ _ Hmiss)).
    split; [apply refetch_requested|].
    split.
    { intros fc d Hup Hday Hne.
      apply (refetch_success loc dateString now upstream st
               (read_cache (weatherCache st)) fc d Hup Hday Hne). }
    intros w Hw.
    pose proof (refetch_cache loc dateString now upstream st
                  (read_cache (weatherCache st))) as Hcache.
    pose proof (refetch_requested loc dateString now upstream st
                  (read_cache (weatherCache st))) as Hreq.
    rewrite Hw in Hcache.
    destruct (refetch loc dateString now upstream st (read_cache (weatherCache st)))
      as [res st1]. cbn [fst snd] in *. subst res.
    split; [exact Hcache|].
    assert (read_cache (weatherCache st1) !! cacheKey loc dateString
            = Some (parsed_entry {| data := w; timestamp := now |})) as Hentry.
    { rewrite Hcache. cbn [read_cache]. by rewrite lookup_fmap, lookup_insert_eq. }
    split; [|split].
    + intros Hlt. unfold Client.fetchWeather.
      rewrite (fresh_data_hit _ _ _ _ Hentry) by done. by cbn [data snd].
    + intros Hge. unfold Client.fetchWeather.
      rewrite fresh_data_miss by (unfold absent_or_stale; by rewrite Hentry).
      rewrite refetch_requested, Hreq, <- app_assoc. done.
    + intros _ Hla Hlo Hla' Hlo' Hother Hmiss'. unfold Client.fetchWeather.
      assert (cacheKey loc dateString <> cacheKey loc' dateString') as Hkey.
      { intros Hkey. apply Hother. symmetry. by apply cacheKey_inj. }
      rewrite fresh_data_miss.
      * rewrite refetch_requested, Hreq, <- app_assoc. done.
      * unfold absent_or_stale in *. rewrite Hcache. cbn [read_cache].
        rewrite lookup_fmap, lookup_insert_ne by done.
        rewrite <- (read_cache_parsed (weatherCache st)) in Hmiss'.
        destruct (read_cache (weatherCache st) !! cacheKey loc' dateString');
          [exact Hmiss' | done].
Qed.

(** C8. When a fetch is needed and it fails (the request is rejected,
    the response is not a success, its body is not JSON, it has no day,
    or the day's hourly series is missing or empty), [fetchWeather]
    reports the failure; and whenever [fetchWeather] reports a failure
    the cache item is the one it found: no entry added, removed or
    changed. *)
Theorem fetch_failure_leaves_cache
    (loc : Location) (dateString : string) (now : Z)
    (upstream : string -> fetch_result) (st : Browser) :
  let key := cacheKey loc dateString in
  let cache := read_cache (weatherCache st) in
  let got := fetchWeather loc dateString now upstream st in
  (forall e, fst got = inl e ->
     weatherCache (snd got) = weatherCache st
     /\ forall k, read_cache (weatherCache (snd got)) !! k = cache !! k)
  /\ (absent_or_stale cache key now ->
      (upstream (url loc) = Rejected -> fst got = inl NetworkError)
      /\ (forall json, upstream (url loc) = Responded false json ->
            fst got = inl FailedToFetchWeather)
      /\ (upstream (url loc) = Responded true None ->
          fst got = inl InvalidResponseBody)
      /\ (forall fc, upstream (url loc) = Responded true (Some fc) ->
            pick_day dateString (default [] (weather fc)) = None ->
            fst got = inl TypeError)
      /\ (forall fc d, upstream (url loc) = Responded true (Some fc) ->
            pick_day dateString (default [] (weather fc)) = Some d ->
            default [] (hourly d) = [] ->
            fst got = inl NoHourlyData)).
Proof.
  cbn zeta. split.
  - intros e He. unfold Client.fetchWeather in *.
    destruct (fresh_data _ _ _) as [cached|]; [done|].
    pose proof (refetch_cache loc dateString now upstream st
                  (read_cache (weatherCache st))) as Hcache.
    rewrite He in Hcache. by rewrite Hcache.
  - intros Hmiss. unfold Client.fetchWeather.
    rewrite (fresh_data_miss _ _ _ Hmiss). unfold Client.refetch.
    repeat split.
    + by intros ->.
    + by intros json ->.
    + by intros ->.
    + by intros fc -> ->.
    + intros fc d -> -> Hempty. by rewrite Hempty.
Qed.

End Cache.

Lemma cache_get_fetches_once_per_window_witness :
  let first :=
    fetchWeather integral_toString trim_ascii sample_location "2024-01-01"
      1000 sample_upstream new_browser in
  let north := {| loc_lat := JNum 18; loc_lon := JNum 78 |} in
  requested (snd (fetchWeather integral_toString trim_ascii sample_location
                    "2024-01-01" 600000 unreachable_upstream (snd first)))
  = ["https://wttr.in/17,78?format=j1"]
  /\ requested (snd (fetchWeather integral_toString trim_ascii sample_location
                       "2024-01-01" 901000 sample_upstream (snd first)))
     = ["https://wttr.in/17,78?format=j1"; "https://wttr.in/17,78?format=j1"]
  /\ requested (snd (fetchWeather integral_toString trim_ascii north
                       "2024-01-01" 600000 unreachable_upstream (snd first)))
     = ["https://wttr.in/17,78?format=j1"; "https://wttr.in/18,78?format=j1"].
Proof.
  cbn zeta.
  destruct (cache_get_fetches_once_per_window integral_toString trim_ascii
              sample_location {| loc_lat := JNum 18; loc_lon := JNum 78 |}
              "2024-01-01" "2024-01-01" 1000 600000 sample_upstream
              unreachable_upstream new_browser eq_refl) as [_ Hmiss].
  destruct (Hmiss I) as (_ & _ & Hsame).
  destruct (cache_get_fetches_once_per_window integral_toString trim_ascii
              sample_location sample_location
              "2024-01-01" "2024-01-01" 1000 901000 sample_upstream
              sample_upstream new_browser eq_refl) as [_ Hmiss'].
  destruct (Hmiss' I) as (_ & _ & Hlater).
  split; [|split].
  - edestruct Hsame as (_ & Hin & _); [reflexivity|].
    apply Hin. reflexivity.
  - edestruct Hlater as (_ & _ & Hout & _); [reflexivity|].
    apply Hout. discriminate.
  - edestruct Hsame as (_ & _ & _ & Hother); [reflexivity|].
    apply Hother; first [reflexivity | discriminate | exact I].
Defined.

(** A mean temperature of -0.03125 is stored as -0, which its JSON text reads
    back as 0: the snapshot served from the cache is the one read back. *)
Example cached_snapshot_is_read_back :
  let chilly := [{| h_tempC := -0.03125; h_humidity := 40; h_windspeedKmph := 10;
                    h_precipMM := 0; weatherDesc := Some "Sunny";
                    weatherCode := 113 |}]%float in
  let upstream := fun _ : string =>
    Responded true
      (Some {| weather := Some [{| day := "2024-01-01";
                                   hourly := Some chilly |}] |}) in
  let first :=
    fetchWeather integral_toString trim_ascii sample_location "2024-01-01"
      1000 upstream new_browser in
  let second :=
    fetchWeather integral_toString trim_ascii sample_location "2024-01-01"
      2000 unreachable_upstream (snd first) in
  (exists snapshot,
      fst first = inr (JObj snapshot)
      /\ assoc "tempC" snapshot = Some (JNum (-0)))
  /\ (exists snapshot,
         fst second = inr (JObj snapshot)
         /\ assoc "tempC" snapshot = Some (JNum 0)).
Proof.
  cbn zeta. split; eexists; (split; [vm_compute; reflexivity | reflexivity]).
Qed.

Lemma fetch_failure_leaves_cache_witness :
  let got :=
    fetchWeather integral_toString trim_ascii sample_location "2024-01-01"
      1000 unreachable_upstream new_browser in
  fst got = inl NetworkError /\ weatherCache (snd got) = NoItem.
Proof.
  cbn zeta.
  destruct (fetch_failure_leaves_cache integral_toString trim_ascii
              sample_location "2024-01-01" 1000 unreachable_upstream new_browser)
    as [Hkeep Hfail].
  destruct (Hfail I) as (Hrejected & _).
  split; [by apply Hrejected|].
  by apply (Hkeep NetworkError), Hrejected.
Defined.

End ClientFacts.

(** * Properties of sequences of store operations *)

Module StoreOpsFacts.
Import Js Store StoreOps StoreFacts.

Lemma key_eq_dec (k k' : string * string * string) : {k = k'} + {k <> k'}.
Proof. apply (decide (k = k')). Qed.

Lemma same_key_true_iff o la lo da :
  same_key o la lo da = true <-> (lat o, lon o, date o) = (la, lo, da).
Proof.
  rewrite same_key_spec. split; [intros (-> & -> & ->); done | intros [= -> -> ->]; done].
Qed.

(** A pass over the log that keeps keys keeps the records of a key in
    place. *)
Lemma key_records_map (g : OverrideRecord -> OverrideRecord) la lo da all :
  (forall o, same_key (g o) la lo da = same_key o la lo da) ->
  key_records la lo da (map g all) = map g (key_records la lo da all).
Proof.
  intros Hg. unfold key_records.
  induction all as [|o rest IH]; cbn [map List.filter]; [done|].
  rewrite Hg. destruct (same_key o la lo da); cbn [map]; by rewrite IH.
Qed.

Lemma key_records_app la lo da l1 l2 :
  key_records la lo da (l1 ++ l2) = key_records la lo da l1 ++ key_records la lo da l2.
Proof. apply List.filter_app. Qed.

Lemma key_records_versions_map (g : OverrideRecord -> OverrideRecord) la lo da all :
  (forall o, same_key (g o) la lo da = same_key o la lo da) ->
  (forall o, version (g o) = version o) ->
  map version (key_records la lo da (map g all))
  = map version (key_records la lo da all).
Proof.
  intros Hk Hv. rewrite key_records_map by done. rewrite map_map.
  apply map_ext. intros o. apply Hv.
Qed.

(** The loops leave the records of every other key as they are. *)
Lemma key_records_superseded_other la lo da la' lo' da' all :
  (la, lo, da) <> (la', lo', da') ->
  key_records la lo da (map (superseded la' lo' da') all) = key_records la lo da all.
Proof.
  intros Hne. unfold key_records.
  induction all as [|o rest IH]; cbn [map List.filter]; [done|].
  rewrite same_key_deactivate_or.
  destruct (same_key o la lo da) eqn:Hk; [|exact IH].
  rewrite superseded_miss by (by apply (same_key_other _ _ _ _ _ _ _ Hk)).
  by rewrite IH.
Qed.

Lemma key_records_switched_off_other la lo da la' lo' da' all :
  (la, lo, da) <> (la', lo', da') ->
  key_records la lo da (map (switched_off la' lo' da') all) = key_records la lo da all.
Proof.
  intros Hne. unfold key_records.
  induction all as [|o rest IH]; cbn [map List.filter]; [done|].
  rewrite same_key_switched_off.
  destruct (same_key o la lo da) eqn:Hk; [|exact IH].
  rewrite switched_off_miss
    by (rewrite (same_key_other _ _ _ _ _ _ _ Hk) by done; apply andb_false_r).
  by rewrite IH.
Qed.

Lemma candidates_switched_off_other la lo da la' lo' da' all :
  (la, lo, da) <> (la', lo', da') ->
  candidates la lo da (map (switched_off la' lo' da') all) = candidates la lo da all.
Proof.
  intros Hne. unfold candidates.
  induction all as [|o rest IH]; cbn [map List.filter]; [done|].
  destruct (active o && same_key o la' lo' da') eqn:Hk'.
  - rewrite (switched_off_hit _ _ _ _ Hk').
    apply andb_true_iff in Hk' as [_ Hk'].
    rewrite same_key_deactivate, (same_key_other _ _ _ _ _ _ _ Hk') by congruence.
    rewrite !andb_false_r. exact IH.
  - by rewrite (switched_off_miss _ _ _ _ Hk'), IH.
Qed.

(** The file after [removeOverride]: the log passed through the loop, or
    the file as it was when nothing was active. *)
Lemma readOverrides_removed f la lo da :
  readOverrides (fst (removeOverride f la lo da))
  = map (switched_off la lo da) (readOverrides f).
Proof.
  rewrite removeOverride_unfold.
  destruct (last (candidates la lo da (readOverrides f))) eqn:Hlast; [done|].
  cbn [fst]. apply last_None in Hlast. by rewrite switched_off_id.
Qed.

Lemma readOverrides_created f c :
  readOverrides (create f c)
  = map (superseded (c_lat c) (c_lon c) (c_date c)) (readOverrides f)
    ++ [snd (addOverride f (c_lat c) (c_lon c) (c_date c) (c_values c) (c_now c))].
Proof. unfold create. by rewrite addOverride_unfold. Qed.

Lemma fold_max_count_up n :
  fold_left Z.max (map Z.of_nat (seq 1 n)) 0 = Z.of_nat n.
Proof.
  induction n as [|n IH]; [done|].
  rewrite seq_S, map_app, fold_left_app, IH. cbn [map fold_left]. lia.
Qed.

(** The version given to a creation for a key whose versions so far are
    1, ..., n. *)
Lemma next_version_after_count_up la lo da n all :
  map version (key_records la lo da all) = map Z.of_nat (seq 1 n) ->
  fst (supersede la lo da 0 all) = Z.of_nat n.
Proof.
  intros Hv. rewrite supersede_fst_fold. unfold key_records in Hv.
  rewrite Hv. apply fold_max_count_up.
Qed.

Lemma created_key f c la lo da :
  same_key (snd (addOverride f (c_lat c) (c_lon c) (c_date c) (c_values c) (c_now c)))
    la lo da = call_for la lo da c.
Proof. rewrite addOverride_unfold. reflexivity. Qed.

Lemma versions_step la lo da n f op :
  map version (key_records la lo da (readOverrides f)) = map Z.of_nat (seq 1 n) ->
  map version (key_records la lo da (readOverrides (apply_op f op)))
  = map Z.of_nat (seq 1 (n + length (creates_for la lo da [op]))).
Proof.
  intros Hv. destruct op as [c | la' lo' da']; cbn [apply_op creates_for].
  - rewrite readOverrides_created, key_records_app, map_app.
    rewrite key_records_versions_map
      by (intros; first [apply same_key_deactivate_or | apply version_superseded]).
    unfold key_records at 2. cbn [List.filter]. rewrite created_key.
    destruct (call_for la lo da c) eqn:Hc; cbn [length map].
    + apply call_for_spec in Hc as [= <- <- <-].
      rewrite addOverride_unfold. cbn [snd version].
      rewrite (next_version_after_count_up _ _ _ n) by done.
      rewrite Hv, Nat.add_1_r, seq_S, map_app. cbn [map]. do 3 f_equal. lia.
    + by rewrite Hv, app_nil_r, Nat.add_0_r.
  - rewrite readOverrides_removed, Nat.add_0_r.
    rewrite key_records_versions_map
      by (intros; first [apply same_key_switched_off | apply version_switched_off]).
    exact Hv.
Qed.

Lemma creates_for_cons la lo da op ops :
  creates_for la lo da (op :: ops) = creates_for la lo da [op] ++ creates_for la lo da ops.
Proof.
  destruct op as [c|]; cbn [creates_for]; [|done].
  by destruct (call_for la lo da c).
Qed.

Lemma run_ops_versions la lo da ops :
  forall f n,
    map version (key_records la lo da (readOverrides f)) = map Z.of_nat (seq 1 n) ->
    map version (key_records la lo da (readOverrides (run_ops f ops)))
    = map Z.of_nat (seq 1 (n + length (creates_for la lo da ops))).
Proof.
  induction ops as [|op ops IH]; intros f n Hv; cbn [run_ops fold_left].
  - cbn. by rewrite Nat.add_0_r.
  - rewrite creates_for_cons, length_app, Nat.add_assoc.
    apply IH. by apply versions_step.
Qed.

(** X1. From a store that reads as empty, after any sequence of creations
    and deletions on any keys, the records of a key carry the versions
    1, 2, ..., n in log order, where n is the number of creations for that
    key: deletions neither remove a version nor let one be used again. *)
Theorem versions_count_up
    (start : file_state) (ops : list store_op) (la lo da : string) :
  readOverrides start = [] ->
  map version (key_records la lo da (readOverrides (run_ops start ops)))
  = map Z.of_nat (seq 1 (length (creates_for la lo da ops))).
Proof.
  intros Hstart. apply (run_ops_versions la lo da ops start 0%nat).
  by rewrite Hstart.
Qed.

Lemma in_force_step la lo da n f op held :
  map version (key_records la lo da (readOverrides f)) = map Z.of_nat (seq 1 n) ->
  candidates la lo da (readOverrides f) = in_force_records held n ->
  candidates la lo da (readOverrides (apply_op f op))
  = in_force_records (in_force la lo da held [op])
      (n + length (creates_for la lo da [op])).
Proof.
  intros Hv Hc. destruct op as [c | la' lo' da']; cbn [apply_op creates_for in_force].
  - destruct (call_for la lo da c) eqn:Hcall.
    + apply call_for_spec in Hcall as [= <- <- <-].
      unfold create. rewrite candidates_after_add, addOverride_unfold. cbn [snd].
      rewrite (next_version_after_count_up _ _ _ n) by done.
      cbn [in_force_records length]. unfold record_of. do 3 f_equal. lia.
    + rewrite readOverrides_created, candidates_app.
      rewrite candidates_superseded_other
        by (intros Heq; symmetry in Heq; apply call_for_spec in Heq; congruence).
      unfold candidates at 2. cbn [List.filter]. rewrite created_key, Hcall.
      by rewrite andb_false_r, app_nil_r, Nat.add_0_r.
  - rewrite readOverrides_removed, Nat.add_0_r. case_bool_decide as Hk.
    + injection Hk as -> -> ->. by rewrite candidates_switched_off.
    + rewrite candidates_switched_off_other by congruence. exact Hc.
Qed.

Lemma in_force_cons la lo da held op ops :
  in_force la lo da held (op :: ops)
  = in_force la lo da (in_force la lo da held [op]) ops.
Proof. by destruct op. Qed.

Lemma run_ops_in_force la lo da ops :
  forall f n held,
    map version (key_records la lo da (readOverrides f)) = map Z.of_nat (seq 1 n) ->
    candidates la lo da (readOverrides f) = in_force_records held n ->
    candidates la lo da (readOverrides (run_ops f ops))
    = in_force_records (in_force la lo da held ops)
        (n + length (creates_for la lo da ops)).
Proof.
  induction ops as [|op ops IH]; intros f n held Hv Hc; cbn [run_ops fold_left].
  - cbn [in_force creates_for length]. by rewrite Nat.add_0_r.
  - rewrite in_force_cons, creates_for_cons, length_app, Nat.add_assoc.
    apply IH; [by apply versions_step | by apply in_force_step].
Qed.

(** X2. Last write wins.  From a store that reads as empty, after any
    sequence of creations and deletions, [getLatestOverride] for a key
    returns the record of the last creation for that key (its values and
    time stamp, active, with the number of creations for the key as its
    version) when no deletion of the key came after it, and nothing when the
    last operation on the key was a deletion or the key was never written. *)
Theorem latest_is_last_write
    (start : file_state) (ops : list store_op) (la lo da : string) :
  readOverrides start = [] ->
  getLatestOverride (run_ops start ops) la lo da
  = match in_force la lo da None ops with
    | Some c => Some (record_of c (length (creates_for la lo da ops)))
    | None => None
    end.
Proof.
  intros Hstart. unfold getLatestOverride.
  rewrite (run_ops_in_force la lo da ops start 0%nat None)
    by (by rewrite Hstart).
  by destruct (in_force la lo da None ops).
Qed.

Lemma single_active_step f op :
  single_active (readOverrides f) -> single_active (readOverrides (apply_op f op)).
Proof.
  intros Hone la lo da. specialize (Hone la lo da).
  destruct op as [c | la' lo' da']; cbn [apply_op].
  - destruct (call_for la lo da c) eqn:Hcall.
    + apply call_for_spec in Hcall as [= <- <- <-].
      unfold create. by rewrite candidates_after_add.
    + rewrite readOverrides_created, candidates_app.
      rewrite candidates_superseded_other
        by (intros Heq; symmetry in Heq; apply call_for_spec in Heq; congruence).
      unfold candidates at 2. cbn [List.filter]. rewrite created_key, Hcall.
      by rewrite andb_false_r, app_nil_r.
  - rewrite readOverrides_removed.
    destruct (key_eq_dec (la', lo', da') (la, lo, da)) as [[= -> -> ->] | Hne].
    + rewrite candidates_switched_off. cbn. lia.
    + by rewrite candidates_switched_off_other by congruence.
Qed.

(** X3. The invariant of the store: when no key has more than one active
    record, no sequence of creations and deletions, on whatever keys, makes
    a key have more than one. *)
Theorem single_active_kept (f : file_state) (ops : list store_op) :
  single_active (readOverrides f) ->
  single_active (readOverrides (run_ops f ops)).
Proof.
  revert f. induction ops as [|op ops IH]; intros f Hone; cbn [run_ops fold_left].
  - exact Hone.
  - apply IH. by apply single_active_step.
Qed.

(** X4. Keys are independent: a creation or a deletion for one key leaves
    the records of every other key, and what [getLatestOverride] returns for
    it, as they were.  Keys that differ as strings are other keys. *)
Theorem other_keys_untouched
    (f : file_state) (la lo da la' lo' da' : string) (values : jsval) (now : string) :
  (la, lo, da) <> (la', lo', da') ->
  let created := fst (addOverride f la' lo' da' values now) in
  let removed := fst (removeOverride f la' lo' da') in
  key_records la lo da (readOverrides created) = key_records la lo da (readOverrides f)
  /\ getLatestOverride created la lo da = getLatestOverride f la lo da
  /\ key_records la lo da (readOverrides removed) = key_records la lo da (readOverrides f)
  /\ getLatestOverride removed la lo da = getLatestOverride f la lo da.
Proof.
  intros Hne. cbn zeta.
  assert (same_key (snd (addOverride f la' lo' da' values now)) la lo da = false) as Hnew.
  { rewrite addOverride_unfold. apply not_true_is_false.
    intros [= ? ? ?]%same_key_true_iff. congruence. }
  rewrite readOverrides_removed. unfold getLatestOverride.
  rewrite readOverrides_removed.
  rewrite candidates_switched_off_other, key_records_switched_off_other by done.
  rewrite addOverride_unfold in *. cbn [fst snd readOverrides] in *.
  rewrite key_records_app, candidates_app.
  rewrite key_records_superseded_other, candidates_superseded_other by done.
  unfold key_records at 2, candidates at 2. cbn [List.filter].
  by rewrite Hnew, andb_false_r, !app_nil_r.
Qed.

Lemma remove_none_after f la lo da :
  getLatestOverride (fst (removeOverride f la lo da)) la lo da = None.
Proof.
  unfold getLatestOverride.
  by rewrite readOverrides_removed, candidates_switched_off.
Qed.

(** X5. Deleting is idempotent: after [removeOverride] for a key nothing is
    found for it, and a second [removeOverride] returns nothing and leaves
    the file as it is. *)
Theorem remove_twice (f : file_state) (la lo da : string) :
  let f1 := fst (removeOverride f la lo da) in
  getLatestOverride f1 la lo da = None
  /\ removeOverride f1 la lo da = (f1, None).
Proof.
  cbn zeta.
  assert (candidates la lo da (readOverrides (fst (removeOverride f la lo da))) = [])
    as Hnone by (rewrite readOverrides_removed; apply candidates_switched_off).
  split.
  - unfold getLatestOverride. by rewrite Hnone.
  - rewrite (removeOverride_unfold (fst _)). by rewrite Hnone.
Qed.

Lemma kept_as_refl o : kept_as o o.
Proof. by repeat split. Qed.

Lemma kept_as_trans o1 o2 o3 : kept_as o1 o2 -> kept_as o2 o3 -> kept_as o1 o3.
Proof.
  intros (? & ? & ? & ? & ? & ? & ? & ?) (? & ? & ? & ? & ? & ? & ? & ?).
  repeat split; try congruence. auto.
Qed.

Lemma kept_as_superseded la lo da o : kept_as o (superseded la lo da o).
Proof.
  unfold superseded. destruct (same_key o la lo da); [|apply kept_as_refl].
  by repeat split.
Qed.

Lemma kept_as_switched_off la lo da o : kept_as o (switched_off la lo da o).
Proof.
  unfold switched_off. destruct (active o && same_key o la lo da); [|apply kept_as_refl].
  by repeat split.
Qed.

Lemma kept_step f op i o :
  readOverrides f !! i = Some o ->
  exists o', readOverrides (apply_op f op) !! i = Some o' /\ kept_as o o'.
Proof.
  intros Hi. destruct op as [c | la lo da]; cbn [apply_op].
  - exists (superseded (c_lat c) (c_lon c) (c_date c) o).
    split; [|apply kept_as_superseded].
    rewrite readOverrides_created. apply lookup_app_l_Some.
    by rewrite list_lookup_fmap, Hi.
  - exists (switched_off la lo da o). split; [|apply kept_as_switched_off].
    by rewrite readOverrides_removed, list_lookup_fmap, Hi.
Qed.

Lemma length_step f op :
  length (readOverrides (apply_op f op))
  = (length (readOverrides f)
     + match op with Create _ => 1 | Delete _ _ _ => 0 end)%nat.
Proof.
  destruct op as [c | la lo da]; cbn [apply_op].
  - by rewrite readOverrides_created, length_app, length_map.
  - rewrite readOverrides_removed, length_map. lia.
Qed.

(** X6. The log only grows and keeps its history: through any sequence of
    creations and deletions every record stays at its index with its key,
    values, time stamp and version; the only field that changes is [active],
    and only from true to false.  The log never gets shorter. *)
Theorem log_keeps_history
    (f : file_state) (ops : list store_op) (i : nat) (o : OverrideRecord) :
  readOverrides f !! i = Some o ->
  (exists o', readOverrides (run_ops f ops) !! i = Some o' /\ kept_as o o')
  /\ (length (readOverrides f) <= length (readOverrides (run_ops f ops)))%nat.
Proof.
  revert f o. induction ops as [|op ops IH]; intros f o Hi; cbn [run_ops fold_left].
  - split; [|done]. exists o. split; [done | apply kept_as_refl].
  - destruct (kept_step f op i o Hi) as (o1 & Hi1 & Hk1).
    destruct (IH (apply_op f op) o1 Hi1) as [(o' & Hi' & Hk') Hlen].
    split.
    + exists o'. split; [done|]. by apply (kept_as_trans o o1 o').
    + pose proof (length_step f op) as Hs. unfold run_ops in *. destruct op; lia.
Qed.

Lemma versions_count_up_witness :
  map version
    (key_records "17.385" "78.4867" "2024-01-01" (readOverrides (run_ops Absent sample_ops)))
  = [1; 2].
Proof.
  apply (versions_count_up Absent sample_ops "17.385" "78.4867" "2024-01-01").
  reflexivity.
Defined.

Lemma latest_is_last_write_witness :
  exists r,
    getLatestOverride (run_ops Empty sample_ops) "17.385" "78.4867" "2024-01-01" = Some r
    /\ version r = 2 /\ newValues r = JObj [("tempC", JNum 30)].
Proof.
  eexists. split.
  - apply (latest_is_last_write Empty sample_ops "17.385" "78.4867" "2024-01-01").
    reflexivity.
  - split; reflexivity.
Defined.

Lemma single_active_kept_witness :
  single_active (readOverrides (run_ops Absent sample_ops)).
Proof.
  apply (single_active_kept Absent sample_ops).
  intros la lo da. cbn. lia.
Defined.

Lemma other_keys_untouched_witness :
  getLatestOverride
    (fst (addOverride (run_ops Absent sample_ops) "17.3850" "78.4867" "2024-01-01"
            (JObj []) "2024-01-01T09:00:00.000Z"))
    "17.385" "78.4867" "2024-01-01"
  = getLatestOverride (run_ops Absent sample_ops) "17.385" "78.4867" "2024-01-01".
Proof.
  apply (other_keys_untouched (run_ops Absent sample_ops)
           "17.385" "78.4867" "2024-01-01" "17.3850" "78.4867" "2024-01-01"
           (JObj []) "2024-01-01T09:00:00.000Z").
  discriminate.
Defined.

Lemma log_keeps_history_witness :
  exists o',
    readOverrides (run_ops Absent sample_ops) !! 0%nat = Some o'
    /\ version o' = 1 /\ newValues o' = JObj [("tempC", JNum 28)].
Proof.
  destruct (log_keeps_history (run_ops Absent (take 1 sample_ops)) (drop 1 sample_ops)
              0%nat _ eq_refl) as [(o' & Hi & Hk) _].
  exists o'. split; [exact Hi|].
  destruct Hk as (_ & _ & _ & Hv & _ & _ & Hn & _). split; [exact Hn | exact Hv].
Defined.

End StoreOpsFacts.

(** * Properties of the HTTP routes *)

Module ServerFacts.
Import Js Store Server StoreFacts.

Section Routes.

Variable Number_toString : float -> string.
Variable extname_lower : string -> string.
Variable readFile : string -> option string.

#[local] Abbreviation String := (String_ Number_toString).
#[local] Abbreviation handle_post := (handle_post Number_toString).
#[local] Abbreviation handle_delete := (handle_delete Number_toString).
#[local] Abbreviation server := (server Number_toString extname_lower readFile).


(** X7. A request that [POST /override] or [DELETE /override] does not
    accept changes nothing: POST answers 201 or 400, DELETE answers 200 or
    400, and with 400 the file is the one the handler found. *)
Theorem rejected_requests_leave_store
    (f : file_state) (parsed : option jsval) (now : string) :
  (status (snd (handle_post f parsed now)) = 201
   \/ (status (snd (handle_post f parsed now)) = 400
       /\ fst (handle_post f parsed now) = f))
  /\ (status (snd (handle_delete f parsed)) = 200
      \/ (status (snd (handle_delete f parsed)) = 400
          /\ fst (handle_delete f parsed) = f)).
Proof.
  split.
  - destruct (handle_post_cases Number_toString f parsed now)
      as [(? & ? & ? & ? & ? & _ & _ & _ & _ & _ & _ & _ & _ & _ & _ & _ & _ & ->)
         | (? & ? & _)];
      [by left | by right].
  - destruct (handle_delete_cases Number_toString f parsed)
      as [(? & ? & ? & ? & _ & _ & _ & _ & _ & _ & _ & _ & _ & _ & ->) | (? & ? & _)];
      [by left | by right].
Qed.

(** X8. [POST /override] stores a record exactly when the body is a JSON
    object whose [lat], [lon], [date] and [values] are all truthy and whose
    [lat], [lon] and [date] are values [String(...)] converts without
    throwing; a body that is [null], a number, a string, an array, an
    object with one of the four missing, empty, [0], [false] or [null], or
    an object whose key field is an object with a [toString] property of its
    own, is answered with 400. *)
Theorem post_accepts_exactly_complete_objects
    (f : file_state) (parsed : option jsval) (now : string) :
  status (snd (handle_post f parsed now)) = 201
  <-> exists fields la lo da values,
        parsed = Some (JObj fields)
        /\ assoc "lat" fields = Some la /\ assoc "lon" fields = Some lo
        /\ assoc "date" fields = Some da /\ assoc "values" fields = Some values
        /\ truthy la = true /\ truthy lo = true /\ truthy da = true
        /\ truthy values = true
        /\ String_throws la = false /\ String_throws lo = false
        /\ String_throws da = false.
Proof.
  destruct (handle_post_cases Number_toString f parsed now)
    as [(fields & la & lo & da & values & Hp & H1 & H2 & H3 & H4 & T1 & T2 & T3 & T4
         & S1 & S2 & S3 & Hpost) | (_ & H400 & Hno)].
  - rewrite Hpost. split; [|done]. intros _.
    by exists fields, la, lo, da, values.
  - split; [rewrite H400; discriminate | intros H; by destruct Hno].
Qed.


(** X10. Every answer on a path that starts with [/override], and on
    [/health], carries the three CORS headers, whatever the method, the
    parameters and the body. *)
Theorem api_replies_carry_cors (req : request) (f : file_state) (now : string) :
  String.prefix "/override" (pathname req) = true \/ pathname req = "/health" ->
  forall h, In h cors_headers -> In h (headers (snd (server req f now))).
Proof.
  intros Hapi h Hh. unfold Server.server.
  assert (String.prefix "/override" (pathname req)
          || bool_decide (pathname req = "/health") = true) as ->.
  { destruct Hapi as [-> | ->]; [done | apply orb_true_r]. }
  cbn [andb].
  repeat match goal with
         | |- context [if ?b then _ else _] => destruct b
         | |- context [let '(_, _) := ?p in _] => destruct p
         | |- context [match readFile ?p with _ => _ end] => destruct (readFile p)
         end;
    cbn [snd headers reply]; try exact Hh; apply in_or_app; by left.
Qed.

(** X11. The request handler changes the override file only through an
    accepted POST (answered 201) or a DELETE that switched a record off
    (answered 200 with [removed] true), both on exactly [/override]; every
    other request (GET, OPTIONS, [/health], other methods, static files,
    rejected bodies) leaves the file as it is. *)
Theorem store_changes_only_by_post_and_delete
    (req : request) (f : file_state) (now : string) :
  fst (server req f now) <> f ->
  pathname req = "/override"
  /\ ((method req = "POST" /\ code (snd (server req f now)) = 201)
      \/ (method req = "DELETE"
          /\ code (snd (server req f now)) = 200
          /\ content (snd (server req f now)) = Json (Removed true))).
Proof.
  unfold Server.server.
  destruct (_ && bool_decide (method req = "OPTIONS")); [done|].
  destruct (bool_decide (pathname req = "/health")); [done|].
  case_bool_decide as Hpath.
  2: { destruct (includes_dotdot _); [done|]. by destruct (readFile _). }
  destruct (bool_decide (method req = "GET")); [done|].
  case_bool_decide as Hpost.
  { intros Hchange. split; [done|]. left. split; [done|].
    destruct (handle_post_cases Number_toString f (parsed_body req) now)
      as [(? & ? & ? & ? & ? & _ & _ & _ & _ & _ & _ & _ & _ & _ & _ & _ & _ & Hp)
         | (Hsame & _)].
    - by rewrite Hp.
    - destruct (Store.handle_post _ _ _ _) as [f' r]. by destruct Hchange. }
  case_bool_decide as Hdelete; [|done].
  intros Hchange. split; [done|]. right. split; [done|].
  destruct (handle_delete_cases Number_toString f (parsed_body req))
    as [(? & la & lo & da & _ & _ & _ & _ & _ & _ & _ & _ & _ & _ & Hd)
       | (Hsame & _)].
  - rewrite Hd in *. cbn [fst snd code content reply status body] in *.
    split; [done|]. rewrite removeOverride_unfold in *.
    destruct (last _); [done | by destruct Hchange].
  - destruct (Store.handle_delete _ _ _) as [f' r]. by destruct Hchange.
Qed.

End Routes.


(** A latitude that is an object with a property [toString]: [String(lat)]
    throws, and both handlers answer from their [catch]. *)
Example unprintable_key_is_rejected :
  let body := Some (JObj [("lat", JObj [("toString", JNum 1)]);
                          ("lon", JStr "78.4867"); ("date", JStr "2024-01-01");
                          ("values", JObj [("tempC", JNum 28)])]) in
  Store.handle_post Samples.integral_toString Absent body "t"
  = (Absent, {| status := 400; body := ErrorMessage "Invalid JSON body" |})
  /\ Store.handle_delete Samples.integral_toString Absent body
     = (Absent, {| status := 400; body := ErrorMessage "Invalid JSON body" |}).
Proof. split; reflexivity. Qed.

Lemma api_replies_carry_cors_witness :
  In ("Access-Control-Allow-Origin", "*")
    (headers (snd (Server.server Samples.integral_toString Scenarios.no_extension
                     Scenarios.no_files Scenarios.put_request Absent "t"))).
Proof.
  apply (api_replies_carry_cors Samples.integral_toString Scenarios.no_extension
           Scenarios.no_files Scenarios.put_request Absent "t").
  - left. reflexivity.
  - left. reflexivity.
Defined.

Lemma store_changes_only_by_post_and_delete_witness :
  code (snd (Server.server Samples.integral_toString Scenarios.no_extension
               Scenarios.no_files Scenarios.post_request Absent "t")) = 201.
Proof.
  destruct (store_changes_only_by_post_and_delete Samples.integral_toString
              Scenarios.no_extension Scenarios.no_files Scenarios.post_request Absent "t")
    as [_ [[_ Hcode] | [Hmethod _]]].
  - discriminate.
  - exact Hcode.
  - discriminate Hmethod.
Defined.

End ServerFacts.

(** * Properties of the location, the cache invalidation and the form
      handlers *)

Module SessionFacts.
Import Js Client Session.

(** *** The stored location *)

Lemma assoc_set_field_eq k x fields : assoc k (set_field k x fields) = Some x.
Proof.
  induction fields as [|[k' v] rest IH]; cbn [set_field assoc].
  - by rewrite bool_decide_eq_true_2.
  - case_bool_decide as Hk; cbn [assoc].
    + by rewrite bool_decide_eq_true_2.
    + by rewrite bool_decide_eq_false_2.
Qed.

Lemma assoc_set_field_ne k k' x fields :
  k <> k' -> assoc k' (set_field k x fields) = assoc k' fields.
Proof.
  intros Hne. induction fields as [|[k0 v] rest IH]; cbn [set_field assoc].
  - by rewrite bool_decide_eq_false_2.
  - case_bool_decide as Hk; cbn [assoc].
    + subst k0. by rewrite !bool_decide_eq_false_2.
    + by rewrite IH.
Qed.

(** A property that is not [undefined] survives [JSON.stringify] and
    [JSON.parse] under its name, with its value passed through them. *)
Lemma assoc_roundtrip k fields v :
  assoc k fields = Some v -> v <> JUndefined ->
  exists rest,
    JSON_roundtrip (JObj fields) = JObj rest
    /\ assoc k rest = Some (JSON_roundtrip v).
Proof.
  intros Hk Hv. eexists. split; [reflexivity|].
  induction fields as [|[k' x] more IH]; [discriminate|].
  cbn [assoc] in Hk. cbn [flat_map fst snd].
  case_bool_decide as Hkk.
  - injection Hk as ->. subst k'.
    destruct v; try done; cbn [app assoc]; by rewrite bool_decide_eq_true_2.
  - specialize (IH Hk).
    destruct x; cbn [app assoc]; rewrite ?bool_decide_eq_false_2 by done; exact IH.
Qed.

Lemma truthy_roundtrip_number x :
  truthy (JSON_roundtrip (JNum x)) = is_finite x && negb (PrimFloat.eqb x 0).
Proof.
  cbn [JSON_roundtrip]. unfold is_finite, is_nan.
  destruct (PrimFloat.eqb x x) eqn:Hxx; cbn [negb orb].
  - destruct (is_infinity x); cbn [negb andb truthy]; [done|].
    destruct (PrimFloat.eqb x 0) eqn:Hx0; cbn [truthy negb andb]; [done|].
    by rewrite Hx0, Hxx.
  - done.
Qed.

(** X12. [initLocation] always yields a location whose [lat] and [lon] are
    truthy.  When the stored item is an object whose [lat] and [lon] are
    truthy, the location is that object, all its properties kept, and the
    coordinates are the stored ones; in every other case (no item, text that
    is not JSON, a value that is not an object, or an object one of whose
    coordinates is missing, [0], [null], empty or false) it is the default
    location (17.385, 78.4867). *)
Theorem initLocation_always_usable (item : location_item) :
  truthy (loc_lat (location_of (initLocation item))) = true
  /\ truthy (loc_lon (location_of (initLocation item))) = true
  /\ (forall fields la lo,
        item = StoredLocation (JObj fields) ->
        assoc "lat" fields = Some la -> assoc "lon" fields = Some lo ->
        truthy la = true -> truthy lo = true ->
        initLocation item = fields
        /\ location_of (initLocation item) = {| loc_lat := la; loc_lon := lo |})
  /\ (~ (exists fields la lo,
            item = StoredLocation (JObj fields)
            /\ assoc "lat" fields = Some la /\ assoc "lon" fields = Some lo
            /\ truthy la = true /\ truthy lo = true) ->
      initLocation item = DEFAULT_LOCATION).
Proof.
  assert (forall fields la lo,
            item = StoredLocation (JObj fields) ->
            assoc "lat" fields = Some la -> assoc "lon" fields = Some lo ->
            truthy la = true -> truthy lo = true ->
            initLocation item = fields
            /\ location_of (initLocation item) = {| loc_lat := la; loc_lon := lo |})
    as Hstored.
  { intros fields la lo -> Hla Hlo Tla Tlo. unfold initLocation, prop.
    cbn [truthy andb field]. rewrite Hla, Hlo. cbn [from_option id].
    rewrite Tla, Tlo. cbn [andb]. split; [done|].
    unfold location_of. by rewrite Hla, Hlo. }
  assert (~ (exists fields la lo,
                item = StoredLocation (JObj fields)
                /\ assoc "lat" fields = Some la /\ assoc "lon" fields = Some lo
                /\ truthy la = true /\ truthy lo = true) ->
          initLocation item = DEFAULT_LOCATION) as Hdefault.
  { intros Hno. destruct item as [|raw|obj]; [done | done |].
    destruct obj as [| |b|x|t|items|fields];
      try (unfold initLocation, prop; cbn [field from_option id truthy andb];
           by rewrite ?andb_false_r).
    unfold initLocation, prop. cbn [truthy andb field].
    destruct (assoc "lat" fields) as [la|] eqn:Hla; cbn [from_option id truthy];
      [|done].
    destruct (truthy la) eqn:Tla; [|done].
    destruct (assoc "lon" fields) as [lo|] eqn:Hlo; cbn [from_option id truthy andb];
      [|done].
    destruct (truthy lo) eqn:Tlo; [|done].
    destruct Hno. by exists fields, la, lo. }
  assert (initLocation item = DEFAULT_LOCATION
          \/ exists fields la lo,
               item = StoredLocation (JObj fields)
               /\ assoc "lat" fields = Some la /\ assoc "lon" fields = Some lo
               /\ truthy la = true /\ truthy lo = true) as Hcases.
  { destruct item as [|raw|obj]; [by left | by left |].
    destruct obj as [| |b|x|t|items|fields];
      try (left; unfold initLocation, prop; cbn [field from_option id truthy andb];
           by rewrite ?andb_false_r).
    unfold initLocation, prop. cbn [truthy andb field].
    destruct (assoc "lat" fields) as [la|] eqn:Hla; cbn [from_option id truthy];
      [|by left].
    destruct (truthy la) eqn:Tla; [|by left].
    destruct (assoc "lon" fields) as [lo|] eqn:Hlo; cbn [from_option id truthy andb];
      [|by left].
    destruct (truthy lo) eqn:Tlo; [|by left].
    right. by exists fields, la, lo. }
  split; [|split; [|split; [exact Hstored | exact Hdefault]]].
  - destruct Hcases as [-> | (fields & la & lo & Hitem & Hla & Hlo & Tla & Tlo)];
      [done|].
    destruct (Hstored fields la lo Hitem Hla Hlo Tla Tlo) as [_ ->]. exact Tla.
  - destruct Hcases as [-> | (fields & la & lo & Hitem & Hla & Hlo & Tla & Tlo)];
      [done|].
    destruct (Hstored fields la lo Hitem Hla Hlo Tla Tlo) as [_ ->]. exact Tlo.
Qed.

(** X13. Round trip of the saved location.  When the latitude and the
    longitude typed in are finite numbers other than 0, the next
    [initLocation] reads them back from the item that [saveLocationData]
    wrote.  When one of them is [NaN] (a field that is not a number), an
    infinity or 0, the next [initLocation] falls back to the default
    location instead. *)
Theorem saved_location_round_trip
    (locationData : list (string * jsval)) (lat lon : float) :
  let item := snd (saveLocationData locationData lat lon) in
  (is_finite lat && negb (PrimFloat.eqb lat 0)
   && (is_finite lon && negb (PrimFloat.eqb lon 0)) = true ->
   location_of (initLocation item) = {| loc_lat := JNum lat; loc_lon := JNum lon |})
  /\ (is_finite lat && negb (PrimFloat.eqb lat 0)
      && (is_finite lon && negb (PrimFloat.eqb lon 0)) = false ->
      initLocation item = DEFAULT_LOCATION).
Proof.
  cbn zeta. unfold saveLocationData. cbn [snd].
  set (fields := set_field "lon" (JNum lon) (set_field "lat" (JNum lat) locationData)).
  assert (assoc "lat" fields = Some (JNum lat)) as Hla.
  { unfold fields. rewrite assoc_set_field_ne by done. apply assoc_set_field_eq. }
  assert (assoc "lon" fields = Some (JNum lon)) as Hlo by apply assoc_set_field_eq.
  destruct (assoc_roundtrip "lat" fields _ Hla) as (rest & Hrt & Hla'); [done|].
  destruct (assoc_roundtrip "lon" fields _ Hlo) as (rest' & Hrt' & Hlo'); [done|].
  rewrite Hrt in Hrt'. injection Hrt' as <-. rewrite Hrt.
  unfold initLocation, prop. cbn [truthy andb field from_option id].
  rewrite Hla', Hlo'. cbn [from_option id]. rewrite !truthy_roundtrip_number.
  split.
  - intros Hok. rewrite Hok. unfold location_of. rewrite Hla', Hlo'.
    cbn [from_option id].
    apply andb_true_iff in Hok as [[Hfa Hza]%andb_true_iff [Hfo Hzo]%andb_true_iff].
    apply negb_true_iff in Hza, Hzo.
    cbn [JSON_roundtrip]. by rewrite Hfa, Hza, Hfo, Hzo.
  - by intros ->.
Qed.

(** *** The cache *)

Section Cache.

Variable Number_toString : float -> string.
Variable trim : string -> string.

#[local] Abbreviation String := (String_ Number_toString).
#[local] Abbreviation cacheKey := (cacheKey Number_toString).
#[local] Abbreviation url := (url Number_toString).
#[local] Abbreviation refetch := (refetch Number_toString trim).
#[local] Abbreviation fetchWeather := (fetchWeather Number_toString trim).
#[local] Abbreviation loadWeather := (loadWeather Number_toString trim).
#[local] Abbreviation invalidate := (invalidate Number_toString).

Lemma invalidate_lookup loc dateString st :
  read_cache (weatherCache (invalidate loc dateString st))
    !! cacheKey loc dateString = None.
Proof.
  unfold Session.invalidate, setItem. cbn [weatherCache read_cache].
  by rewrite lookup_fmap, lookup_delete_eq.
Qed.

Lemma fetchWeather_after_delete loc dateString now upstream st :
  read_cache (weatherCache st) !! cacheKey loc dateString = None ->
  fetchWeather loc dateString now upstream st
  = refetch loc dateString now upstream st (read_cache (weatherCache st)).
Proof.
  intros Hcache. unfold Client.fetchWeather, fresh_data.
  by rewrite Hcache.
Qed.

(** X14. Invalidation forces a fetch.  After the cache entry of a key has
    been deleted the way the two form handlers do it, the next
    [fetchWeather] for the key sends a request whatever the time and however
    fresh the deleted entry was; the entries of the other keys stay. *)
Theorem invalidate_forces_refetch
    (loc : Location) (dateString : string) (now : Z)
    (upstream : string -> fetch_result) (st : Browser) :
  requested (snd (fetchWeather loc dateString now upstream
                    (invalidate loc dateString st)))
  = requested st ++ [url loc]
  /\ read_cache (weatherCache (invalidate loc dateString st))
       !! cacheKey loc dateString = None
  /\ forall k, k <> cacheKey loc dateString ->
       read_cache (weatherCache (invalidate loc dateString st)) !! k
       = read_cache (weatherCache st) !! k.
Proof.
  split; [|split].
  - rewrite fetchWeather_after_delete by apply invalidate_lookup.
    by rewrite ClientFacts.refetch_requested.
  - apply invalidate_lookup.
  - intros k Hk. unfold Session.invalidate, setItem. cbn [weatherCache read_cache].
    rewrite lookup_fmap, lookup_delete_ne by done.
    apply ClientFacts.read_cache_parsed.
Qed.

(** X15. Cache entries are independent: whatever [fetchWeather] does for
    one key (a hit, a failed fetch, a stored snapshot), the entry of every
    other key is what it was. *)
Theorem fetchWeather_keeps_other_keys
    (loc : Location) (dateString : string) (now : Z)
    (upstream : string -> fetch_result) (st : Browser) (k : string) :
  k <> cacheKey loc dateString ->
  read_cache (weatherCache (snd (fetchWeather loc dateString now upstream st))) !! k
  = read_cache (weatherCache st) !! k.
Proof.
  intros Hk. unfold Client.fetchWeather.
  destruct (fresh_data _ _ _); [done|].
  pose proof (ClientFacts.refetch_cache Number_toString trim loc dateString now
                upstream st (read_cache (weatherCache st))) as Hcache.
  destruct (fst (refetch _ _ _ _ _ _)); rewrite Hcache; [done|].
  cbn [read_cache]. rewrite lookup_fmap, lookup_insert_ne by done.
  apply ClientFacts.read_cache_parsed.
Qed.

Lemma find_no_match dateString (days : list WeatherDay) :
  Forall (fun d => day d <> dateString) days ->
  List.find (fun item => bool_decide (day item = dateString)) days = None.
Proof.
  induction 1 as [|d days Hd _ IH]; cbn [List.find]; [done|].
  by rewrite bool_decide_eq_false_2.
Qed.

(** X16. When the forecast has no day with the requested date,
    [fetchWeather] silently uses the first day of the forecast: it returns
    the snapshot of that day's hourly entries and stores it under the
    requested date. *)
Theorem fetch_falls_back_to_first_day
    (loc : Location) (dateString : string) (now : Z)
    (upstream : string -> fetch_result) (st : Browser)
    (fc : Forecast) (first : WeatherDay) (others : list WeatherDay)
    (entries : list HourlyEntry) :
  absent_or_stale (read_cache (weatherCache st)) (cacheKey loc dateString) now ->
  upstream (url loc) = Responded true (Some fc) ->
  weather fc = Some (first :: others) ->
  Forall (fun d => day d <> dateString) (first :: others) ->
  hourly first = Some entries -> entries <> [] ->
  exists w,
    reduce_hourly trim entries = inr w
    /\ fetchWeather loc dateString now upstream st
       = (inr (weather_value w),
          setItem (request st (url loc))
            (<[cacheKey loc dateString :=
                 {| data := weather_value w; timestamp := now |}]>
               (read_cache (weatherCache st)))).
Proof.
  intros Hmiss Hup Hweather Hdays Hhourly Hne.
  destruct (ClientFacts.reduce_hourly_total trim entries Hne) as [_ [w Hw]].
  exists w. split; [done|].
  unfold Client.fetchWeather.
  rewrite (ClientFacts.fresh_data_miss _ _ _ Hmiss).
  unfold Client.refetch, pick_day. rewrite Hup, Hweather. cbn [from_option id].
  rewrite (find_no_match _ _ Hdays). cbn [head]. rewrite Hhourly. cbn [from_option id].
  rewrite bool_decide_eq_false_2 by (by intros ?%nil_length_inv).
  by rewrite Hw.
Qed.

Lemma loadWeather_state loc dateString now upstream file st :
  snd (loadWeather loc dateString now upstream file st)
  = snd (fetchWeather loc dateString now upstream st).
Proof.
  unfold Client.loadWeather.
  destruct (fetchWeather loc dateString now upstream st) as [[e|w] st']; [done|].
  by destruct (fetchOverride _).
Qed.

Lemma getLatestOverride_found file la lo da o :
  Store.getLatestOverride file la lo da = Some o ->
  In o (Store.readOverrides file) /\ Store.active o = true
  /\ (Store.lat o, Store.lon o, Store.date o) = (la, lo, da)
  /\ forall o', In o' (Store.readOverrides file) -> Store.active o' = true ->
       (Store.lat o', Store.lon o', Store.date o') = (la, lo, da) ->
       Store.version o' <= Store.version o.
Proof.
  unfold Store.getLatestOverride.
  destruct (Store.candidates la lo da (Store.readOverrides file)) as [|c rest] eqn:Hc;
    [discriminate|].
  intros [= <-].
  pose proof (StoreFacts.reduce_pick_latest_In rest c) as Hin.
  rewrite <- Hc in Hin. apply StoreFacts.candidates_In in Hin as (Hin & Ha & Hk).
  apply StoreOpsFacts.same_key_true_iff in Hk.
  repeat split; try done.
  intros o' Hin' Ha' Hk'. apply StoreFacts.reduce_pick_latest_max.
  rewrite <- Hc. apply StoreFacts.candidates_In.
  by rewrite StoreOpsFacts.same_key_true_iff.
Qed.

(** X17. What [loadWeather] shows under an override label always comes from
    the store: when the label is not ["API"] there is an active record for
    exactly the key (the strings of the location's [lat] and [lon], and the
    date), the label carries its version, no active record of the key has a
    higher version, and the snapshot is the fetched one overwritten with that
    record's values. *)
Theorem loadWeather_shows_only_active_override
    (loc : Location) (dateString : string) (now : Z)
    (upstream : string -> fetch_result) (file : Store.file_state) (st : Browser)
    (combined : gmap string jsval) (label : string) :
  fst (loadWeather loc dateString now upstream file st) = inr (combined, label) ->
  exists snapshot,
    fst (fetchWeather loc dateString now upstream st) = inr snapshot
    /\ ((label = "API" /\ combined = spread snapshot)
        \/ exists o,
             In o (Store.readOverrides file) /\ Store.active o = true
             /\ (Store.lat o, Store.lon o, Store.date o)
                = (String (loc_lat loc), String (loc_lon loc), dateString)
             /\ (forall o', In o' (Store.readOverrides file) ->
                   Store.active o' = true ->
                   (Store.lat o', Store.lon o', Store.date o')
                   = (String (loc_lat loc), String (loc_lon loc), dateString) ->
                   Store.version o' <= Store.version o)
             /\ label = "Override (v" +:+ pretty (Store.version o) +:+ ")"
             /\ combined = spread (Store.newValues o) ∪ spread snapshot).
Proof.
  unfold Client.loadWeather.
  destruct (fetchWeather loc dateString now upstream st) as [[e|w] st'];
    [discriminate|].
  cbn [fst]. unfold Store.handle_get.
  destruct (missing _ || missing _ || missing _); [discriminate|].
  cbn [from_option id].
  destruct (Store.getLatestOverride file _ _ _) as [o|] eqn:Hget.
  - cbn. destruct (truthy (Store.newValues o)) eqn:Tv.
    + cbn. rewrite Tv. intros [= <- <-]. exists w. split; [done|]. right.
      destruct (getLatestOverride_found _ _ _ _ _ Hget) as (Hin & Ha & Hk & Hmax).
      by exists o.
    + cbn. intros [= <- <-]. exists w. split; [done|]. by left.
  - cbn. intros [= <- <-]. exists w. split; [done|]. by left.
Qed.

(** *** The form handlers *)

#[local] Abbreviation save_override := (save_override Number_toString trim).
#[local] Abbreviation remove_override := (remove_override Number_toString trim).

Lemma truthy_text t : t <> "" -> truthy (JStr t) = true.
Proof. intros Ht. cbn. by rewrite bool_decide_eq_false_2. Qed.

(** [loadWeather] right after the cache entry was deleted, against a
    provider that answers with a usable forecast. *)
Lemma loadWeather_after_invalidate loc dateString now upstream file st fc d :
  String (loc_lat loc) <> "" -> String (loc_lon loc) <> "" -> dateString <> "" ->
  upstream (url loc) = Responded true (Some fc) ->
  pick_day dateString (default [] (weather fc)) = Some d ->
  default [] (hourly d) <> [] ->
  exists w,
    reduce_hourly trim (default [] (hourly d)) = inr w
    /\ fst (loadWeather loc dateString now upstream file (invalidate loc dateString st))
       = inr (combine w
                (match Store.getLatestOverride file (String (loc_lat loc))
                         (String (loc_lon loc)) dateString with
                 | Some o => if truthy (Store.newValues o) then Some o else None
                 | None => None
                 end))
    /\ requested (snd (loadWeather loc dateString now upstream file
                         (invalidate loc dateString st)))
       = requested st ++ [url loc].
Proof.
  intros Hla Hlo Hda Hup Hday Hne.
  pose proof (fetchWeather_after_delete loc dateString now upstream
                (invalidate loc dateString st) (invalidate_lookup loc dateString st))
    as Hfetch.
  destruct (ClientFacts.refetch_success Number_toString trim loc dateString now upstream
              (invalidate loc dateString st)
              (read_cache (weatherCache (invalidate loc dateString st)))
              fc d Hup Hday Hne) as (w & Hw & Hres).
  exists w. split; [done|]. split.
  - apply ClientFacts.loadWeather_merges; [|done..]. by rewrite Hfetch.
  - rewrite loadWeather_state, Hfetch. by rewrite ClientFacts.refetch_requested.
Qed.

(** X18. Saving an override and seeing it.  When the location's [lat] and
    [lon] print as non-empty strings, the date is not empty and the
    provider answers with a usable forecast, the submit handler stores one
    record for the key, always sends a fresh request for the forecast (the
    cache entry is deleted first), and hands [renderWeather] the fetched
    snapshot with the five form fields written over it, under the label
    ["Override (v<version>)"] of the new record; a form number that is
    [NaN] arrives as [null], the icon and the source stay those of the
    forecast.  That snapshot is shown when the temperature, the wind and the
    precipitation of the form are finite numbers.  When one of them is not
    (an empty field reads as [NaN] and is stored as [null]),
    [renderWeather] throws on [toFixed]: the record is stored all the same,
    and the page shows the error instead of the card. *)
Theorem save_then_load_shows_override
    (loc : Location) (dateString : string) (form : Form) (stamp : string) (now : Z)
    (upstream : string -> fetch_result) (file : Store.file_state) (st : Browser)
    (fc : Forecast) (d : WeatherDay) :
  printable loc = true ->
  String (loc_lat loc) <> "" -> String (loc_lon loc) <> "" -> dateString <> "" ->
  upstream (url loc) = Responded true (Some fc) ->
  pick_day dateString (default [] (weather fc)) = Some d ->
  default [] (hourly d) <> [] ->
  let values := JSON_roundtrip (form_values trim form) in
  let created :=
    Store.addOverride file (String (loc_lat loc)) (String (loc_lon loc)) dateString
      values stamp in
  let label := "Override (v" +:+ pretty (Store.version (snd created)) +:+ ")" in
  let result := save_override loc dateString form stamp now upstream file st in
  exists w combined,
    reduce_hourly trim (default [] (hourly d)) = inr w
    /\ snd (fst result) = fst created
    /\ requested (snd result) = requested st ++ [url loc]
    /\ fst (loadWeather loc dateString now upstream (fst created)
              (invalidate loc dateString st))
       = inr (combined, label)
    /\ combined !! "tempC" = Some (JSON_roundtrip (JNum (updTemp form)))
    /\ combined !! "humidityPct" = Some (JSON_roundtrip (JNum (updHumidity form)))
    /\ combined !! "windKph" = Some (JSON_roundtrip (JNum (updWind form)))
    /\ combined !! "precipMm" = Some (JSON_roundtrip (JNum (updPrecip form)))
    /\ combined !! "conditionText" = Some (JStr (trim (updCondition form)))
    /\ combined !! "conditionIcon" = Some (JStr (conditionIcon w))
    /\ combined !! "source" = Some (JStr (source w))
    /\ (is_finite (updTemp form) && is_finite (updWind form)
        && is_finite (updPrecip form) = true ->
        fst (fst result) = Shown combined label)
    /\ (is_finite (updTemp form) && is_finite (updWind form)
        && is_finite (updPrecip form) = false ->
        fst (fst result) = LoadError TypeError).
Proof.
  intros _ Hla Hlo Hda Hup Hday Hne. cbn zeta.
  unfold Session.save_override.
  set (values := JSON_roundtrip (form_values trim form)).
  assert (JSON_roundtrip
            (JObj [("lat", JStr (String (loc_lat loc)));
                   ("lon", JStr (String (loc_lon loc)));
                   ("date", JStr dateString); ("values", form_values trim form)])
          = JObj [("lat", JStr (String (loc_lat loc)));
                  ("lon", JStr (String (loc_lon loc)));
                  ("date", JStr dateString); ("values", values)]) as -> by reflexivity.
  assert (Store.handle_post Number_toString file
            (Some (JObj [("lat", JStr (String (loc_lat loc)));
                         ("lon", JStr (String (loc_lon loc)));
                         ("date", JStr dateString); ("values", values)])) stamp
          = (fst (Store.addOverride file (String (loc_lat loc)) (String (loc_lon loc))
                    dateString values stamp),
             {| Store.status := 201;
                Store.body :=
                  Store.RecordJSON
                    (snd (Store.addOverride file (String (loc_lat loc))
                            (String (loc_lon loc)) dateString values stamp)) |}))
    as ->.
  { unfold Store.handle_post. cbn [field].
    change (assoc "lat" _) with (Some (JStr (String (loc_lat loc)))).
    change (assoc "lon" _) with (Some (JStr (String (loc_lon loc)))).
    change (assoc "date" _) with (Some (JStr dateString)).
    change (assoc "values" _) with (Some values).
    cbn [from_option id]. rewrite !truthy_text by done.
    assert (truthy values = true) as -> by reflexivity.
    cbn [negb orb String_ String_throws].
    by destruct (Store.addOverride _ _ _ _ _ _). }
  cbn [ok Store.status negb andb Z.leb Z.compare Pos.compare Pos.compare_cont].
  set (created := Store.addOverride file _ _ _ values stamp).
  destruct (loadWeather_after_invalidate loc dateString now upstream (fst created) st
              fc d Hla Hlo Hda Hup Hday Hne) as (w & Hw & Hloaded & Hreq).
  assert (Store.getLatestOverride (fst created) (String (loc_lat loc))
            (String (loc_lon loc)) dateString = Some (snd created)) as Hget.
  { unfold Store.getLatestOverride. unfold created.
    by rewrite StoreFacts.candidates_after_add. }
  assert (Store.newValues (snd created) = values) as Hvalues.
  { unfold created. by rewrite StoreFacts.addOverride_unfold. }
  rewrite Hget, Hvalues in Hloaded.
  assert (truthy values = true) as Tv by reflexivity.
  rewrite Tv in Hloaded. unfold combine, merge in Hloaded.
  rewrite Hvalues, Tv in Hloaded.
  change (spread (weather_value w)) with (weather_object w) in Hloaded.
  set (combined := spread values ∪ weather_object w) in *.
  assert (combined !! "tempC" = Some (JSON_roundtrip (JNum (updTemp form)))) as Htemp
    by (unfold combined; rewrite ClientFacts.lookup_overwrite; reflexivity).
  assert (combined !! "humidityPct" = Some (JSON_roundtrip (JNum (updHumidity form))))
    as Hhum by (unfold combined; rewrite ClientFacts.lookup_overwrite; reflexivity).
  assert (combined !! "windKph" = Some (JSON_roundtrip (JNum (updWind form)))) as Hwind
    by (unfold combined; rewrite ClientFacts.lookup_overwrite; reflexivity).
  assert (combined !! "precipMm" = Some (JSON_roundtrip (JNum (updPrecip form))))
    as Hprecip by (unfold combined; rewrite ClientFacts.lookup_overwrite; reflexivity).
  assert (combined !! "conditionText" = Some (JStr (trim (updCondition form))))
    as Htext by (unfold combined; rewrite ClientFacts.lookup_overwrite; reflexivity).
  assert (combined !! "conditionIcon" = Some (JStr (conditionIcon w))) as Hicon
    by (unfold combined; rewrite ClientFacts.lookup_overwrite; reflexivity).
  assert (combined !! "source" = Some (JStr (source w))) as Hsource
    by (unfold combined; rewrite ClientFacts.lookup_overwrite; reflexivity).
  assert (renders combined
          = is_finite (updTemp form) && is_finite (updWind form)
            && is_finite (updPrecip form)) as Hrenders.
  { unfold renders. rewrite Htemp, Hhum, Hwind, Hprecip, Htext, Hicon.
    cbn [JSON_roundtrip from_option id].
    destruct (is_finite (updTemp form)), (is_finite (updHumidity form)),
      (is_finite (updWind form)), (is_finite (updPrecip form)),
      (PrimFloat.eqb (updTemp form) 0), (PrimFloat.eqb (updHumidity form) 0),
      (PrimFloat.eqb (updWind form) 0), (PrimFloat.eqb (updPrecip form) 0);
      reflexivity. }
  destruct (loadWeather loc dateString now upstream (fst created)
              (invalidate loc dateString st)) as [loaded st'].
  cbn [fst snd] in *. subst loaded. cbn [shown]. rewrite Hrenders.
  exists w, combined.
  do 11 (split; [done|]).
  split; by intros ->.
Qed.

(** X19. Removing an override and seeing the forecast again.  Under the
    same conditions the click handler of the remove button leaves the key
    without an active record, always sends a fresh request for the forecast,
    and what is shown is the fetched snapshot, unchanged, under the label
    ["API"]; this is so whether or not the key had an active record. *)
Theorem remove_then_load_shows_api
    (loc : Location) (dateString : string) (now : Z)
    (upstream : string -> fetch_result) (file : Store.file_state) (st : Browser)
    (fc : Forecast) (d : WeatherDay) :
  String (loc_lat loc) <> "" -> String (loc_lon loc) <> "" -> dateString <> "" ->
  upstream (url loc) = Responded true (Some fc) ->
  pick_day dateString (default [] (weather fc)) = Some d ->
  default [] (hourly d) <> [] ->
  let result := remove_override loc dateString now upstream file st in
  exists w,
    reduce_hourly trim (default [] (hourly d)) = inr w
    /\ fst (fst result) = Shown (weather_object w) "API"
    /\ snd (fst result)
       = fst (Store.removeOverride file (String (loc_lat loc)) (String (loc_lon loc))
                dateString)
    /\ Store.getLatestOverride (snd (fst result)) (String (loc_lat loc))
         (String (loc_lon loc)) dateString = None
    /\ requested (snd result) = requested st ++ [url loc].
Proof.
  intros Hla Hlo Hda Hup Hday Hne. cbn zeta.
  unfold Session.remove_override.
  assert (JSON_roundtrip
            (JObj [("lat", JStr (String (loc_lat loc)));
                   ("lon", JStr (String (loc_lon loc))); ("date", JStr dateString)])
          = JObj [("lat", JStr (String (loc_lat loc)));
                  ("lon", JStr (String (loc_lon loc))); ("date", JStr dateString)])
    as -> by reflexivity.
  assert (Store.handle_delete Number_toString file
            (Some (JObj [("lat", JStr (String (loc_lat loc)));
                         ("lon", JStr (String (loc_lon loc)));
                         ("date", JStr dateString)]))
          = (fst (Store.removeOverride file (String (loc_lat loc))
                    (String (loc_lon loc)) dateString),
             {| Store.status := 200;
                Store.body :=
                  Store.Removed
                    (bool_decide
                       (is_Some (snd (Store.removeOverride file (String (loc_lat loc))
                                        (String (loc_lon loc)) dateString)))) |}))
    as ->.
  { unfold Store.handle_delete. cbn [field].
    change (assoc "lat" _) with (Some (JStr (String (loc_lat loc)))).
    change (assoc "lon" _) with (Some (JStr (String (loc_lon loc)))).
    change (assoc "date" _) with (Some (JStr dateString)).
    cbn [from_option id]. rewrite !truthy_text by done.
    cbn [negb orb String_ String_throws].
    by destruct (Store.removeOverride _ _ _ _). }
  cbn [ok Store.status negb andb Z.leb Z.compare Pos.compare Pos.compare_cont].
  set (file' := fst (Store.removeOverride file _ _ _)).
  destruct (loadWeather_after_invalidate loc dateString now upstream file' st
              fc d Hla Hlo Hda Hup Hday Hne) as (w & Hw & Hloaded & Hreq).
  assert (Store.getLatestOverride file' (String (loc_lat loc)) (String (loc_lon loc))
            dateString = None) as Hnone by apply StoreOpsFacts.remove_none_after.
  rewrite Hnone in Hloaded. unfold combine in Hloaded.
  destruct (loadWeather loc dateString now upstream file'
              (invalidate loc dateString st)) as [loaded st'].
  cbn [fst snd] in *. subst loaded. cbn [shown merge].
  change (spread (weather_value w)) with (weather_object w).
  assert (renders (weather_object w) = true) as -> by reflexivity.
  by exists w.
Qed.

End Cache.

(** X20. The other-cloudy icon is the answer for exactly the codes that the
    table does not list: no listed code is shown with the default icon. *)
Theorem default_icon_iff_unmapped (code : float) :
  weatherCodeToIcon code = "🌥️" <-> includes mapped_codes code = false.
Proof.
  split; [|apply ClientFacts.weatherCodeToIcon_default].
  unfold mapped_codes. rewrite !ClientFacts.includes_app. unfold weatherCodeToIcon.
  change (includes [113%float] code) with (PrimFloat.eqb code 113 || false).
  rewrite (orb_false_r (PrimFloat.eqb code 113)).
  destruct (PrimFloat.eqb code 113); [discriminate|].
  destruct (includes [116; 119; 122]%float code); [discriminate|].
  destruct (includes [143; 248; 260]%float code); [discriminate|].
  destruct (includes _ code); [discriminate|].
  destruct (includes _ code); [discriminate|].
  done.
Qed.

Lemma initLocation_always_usable_witness :
  initLocation
    (StoredLocation (JObj [("lat", JNum 51.5); ("lon", JStr "0.1"); ("zoom", JNum 3)]))
  = [("lat", JNum 51.5); ("lon", JStr "0.1"); ("zoom", JNum 3)].
Proof.
  destruct (initLocation_always_usable
              (StoredLocation
                 (JObj [("lat", JNum 51.5); ("lon", JStr "0.1"); ("zoom", JNum 3)])))
    as (_ & _ & Hstored & _).
  apply (Hstored [("lat", JNum 51.5); ("lon", JStr "0.1"); ("zoom", JNum 3)]
           (JNum 51.5) (JStr "0.1")); reflexivity.
Defined.

Lemma saved_location_round_trip_witness :
  location_of (initLocation (snd (saveLocationData DEFAULT_LOCATION 51.5 nan)))
  = location_of DEFAULT_LOCATION.
Proof.
  rewrite (proj2 (saved_location_round_trip DEFAULT_LOCATION 51.5 nan)); reflexivity.
Defined.

Lemma fetchWeather_keeps_other_keys_witness :
  read_cache
    (weatherCache
       (snd (fetchWeather Samples.integral_toString Samples.trim_ascii
               Samples.sample_location "2024-01-01" 1000 Samples.sample_upstream
               Samples.new_browser)))
    !! "17,78,2024-01-02" = None.
Proof.
  rewrite (fetchWeather_keeps_other_keys Samples.integral_toString Samples.trim_ascii
             Samples.sample_location "2024-01-01" 1000 Samples.sample_upstream
             Samples.new_browser "17,78,2024-01-02"); [reflexivity | discriminate].
Defined.

Lemma fetch_falls_back_to_first_day_witness :
  exists w,
    fst (fetchWeather Samples.integral_toString Samples.trim_ascii
           Samples.sample_location "2024-01-02" 1000 Samples.sample_upstream
           Samples.new_browser) = inr (weather_value w)
    /\ reduce_hourly Samples.trim_ascii Samples.sample_hourly = inr w.
Proof.
  destruct (fetch_falls_back_to_first_day Samples.integral_toString Samples.trim_ascii
              Samples.sample_location "2024-01-02" 1000 Samples.sample_upstream
              Samples.new_browser Samples.sample_forecast
              {| day := "2024-01-01"; hourly := Some Samples.sample_hourly |} []
              Samples.sample_hourly)
    as (w & Hw & Hfetch);
    [first [exact I | reflexivity | discriminate
           | repeat constructor; discriminate] .. |].
  exists w. rewrite Hfetch. split; [reflexivity | exact Hw].
Defined.

Lemma loadWeather_shows_only_active_override_witness :
  exists snapshot,
    fst (fetchWeather Samples.integral_toString Samples.trim_ascii
           Samples.sample_location "2024-01-01" 1000 Samples.sample_upstream
           Samples.new_browser) = inr snapshot.
Proof.
  eassert (fst (loadWeather Samples.integral_toString Samples.trim_ascii
                  Samples.sample_location "2024-01-01" 1000 Samples.sample_upstream
                  Scenarios.sample_file Samples.new_browser) = inr (_, _)) as Hload
    by (vm_compute; reflexivity).
  destruct (loadWeather_shows_only_active_override _ _ _ _ _ _ _ _ _ _ Hload)
    as (w & Hw & _).
  by exists w.
Defined.

Lemma save_then_load_shows_override_witness :
  exists combined,
    fst (fst (Session.save_override Samples.integral_toString Samples.trim_ascii
                Samples.sample_location "2024-01-01" Scenarios.sample_form
                "2024-01-01T08:00:00.000Z" 1000 Samples.sample_upstream
                Scenarios.sample_file Samples.new_browser))
    = Shown combined "Override (v2)"
    /\ combined !! "tempC" = Some (JNum 30)
    /\ combined !! "humidityPct" = Some JNull.
Proof.
  destruct (save_then_load_shows_override Samples.integral_toString Samples.trim_ascii
              Samples.sample_location "2024-01-01" Scenarios.sample_form
              "2024-01-01T08:00:00.000Z" 1000 Samples.sample_upstream
              Scenarios.sample_file Samples.new_browser Samples.sample_forecast
              {| day := "2024-01-01"; hourly := Some Samples.sample_hourly |})
    as (w & combined & _ & _ & _ & _ & Htemp & Hhum & _ & _ & _ & _ & _ & Hshown & _);
    [first [reflexivity | discriminate] .. |].
  exists combined. split; [apply Hshown; reflexivity|].
  split; [exact Htemp | exact Hhum].
Defined.

(** The form sent with its temperature field left empty: the override is
    stored with [tempC] null, and the reload ends in the error of
    [renderWeather] instead of the card. *)
Example blank_temperature_hides_card :
  let blank := {| updTemp := nan; updHumidity := 40; updWind := 12; updPrecip := 0;
                  updCondition := "Hot" |} in
  let result :=
    Session.save_override Samples.integral_toString Samples.trim_ascii
      Samples.sample_location "2024-01-01" blank "2024-01-01T08:00:00.000Z" 1000
      Samples.sample_upstream Scenarios.sample_file Samples.new_browser in
  fst (fst result) = LoadError TypeError
  /\ (exists o,
         Store.getLatestOverride (snd (fst result)) "17" "78" "2024-01-01" = Some o
         /\ Store.version o = 2
         /\ field (Store.newValues o) "tempC" = Some JNull).
Proof.
  cbn zeta. split; [vm_compute; reflexivity|].
  eexists. split; [vm_compute; reflexivity|]. split; reflexivity.
Qed.

Lemma remove_then_load_shows_api_witness :
  Store.getLatestOverride
    (snd (fst (Session.remove_override Samples.integral_toString Samples.trim_ascii
                 Samples.sample_location "2024-01-01" 1000 Samples.sample_upstream
                 Scenarios.sample_file Samples.new_browser)))
    "17" "78" "2024-01-01" = None.
Proof.
  destruct (remove_then_load_shows_api Samples.integral_toString Samples.trim_ascii
              Samples.sample_location "2024-01-01" 1000 Samples.sample_upstream
              Scenarios.sample_file Samples.new_browser Samples.sample_forecast
              {| day := "2024-01-01"; hourly := Some Samples.sample_hourly |})
    as (w & _ & _ & _ & Hnone & _);
    [first [reflexivity | discriminate] .. |].
  exact Hnone.
Defined.

End SessionFacts.
